(** * The fridge inventory ledger: a shallow embedding and its properties

    The development follows [fridge_agent/bk/db copy 2.py] (the storage layer:
    [consume], [update_default_and_recalc_items], [upsert_default_days],
    [add_item], [_parse_text_to_date], [_normalize_existing_rows_to_date_only],
    [migrate], the listings [list_inventory], [get_items_by_name] and
    [expiring_within], [update_item_exp_by_id], and the list encoder
    [_dumps_unique] of the profiles) and [fridge_agent/inventory_tool.py]
    (the tool layer: [_parse_to_date] and the add, consume, discard,
    set_shelf_life and update_expiry branches of [_inventory_fn]). The
    profile tables, whose list columns are JSON texts, and the query and
    expiring branches of the tool are not modelled.

    Modelling choices, all local to this file:
    - in the tables a Python [float] quantity is an exact rational ([Q]);
      NaN, infinities and rounding are outside that model, and its examples
      only use values that binary64 represents exactly. What depends on the
      arithmetic is stated on [consume_plan], the loop of [consume] with its
      arithmetic as an interface: [binary64], the hardware floats, is the
      arithmetic of the code, and [exact] that of the tables;
    - an SQLite table with an integer primary key is a finite map from the
      key to the other columns; the connection is a pair of databases, the
      committed one and the one the connection sees (committed plus pending
      statements), since the code never rolls back;
    - Python exceptions are a result type that keeps the connection state
      reached when the exception was raised;
    - [datetime.date], [strptime]/[strftime] with [%Y-%m-%d] and [str.strip]
      are modelled concretely, [strftime] with the unpadded year of glibc;
      [datetime.fromisoformat], [zoneinfo], the wall clock and SQLite's
      [date()] are an interface ([Platform]);
    - an integer bound to a statement is a signed 64-bit value, as [sqlite3]
      has it; this matters for the days of a shelf life, the other integers
      bound are ids of rows that exist. *)

From Stdlib Require Import PrimFloat.
From Stdlib Require FloatOps SpecFloat.
From Stdlib Require Import ZArith QArith Lqa String Ascii List Lia Bool.
From stdpp Require Import base gmap strings list sorting.

Local Open Scope string_scope.
Local Open Scope Z_scope.

(** Decimal literals such as 0.1 denote the nearest binary64 value, as in
    Python. *)
Set Warnings "-inexact-float".

(** ** Python's [datetime.date] *)

Module PyDate.

Record date := mkdate { year : Z; month : Z; day : Z }.

Definition MINYEAR : Z := 1.
Definition MAXYEAR : Z := 9999.
Definition _MAXORDINAL : Z := 3652059.

Definition _is_leap (y : Z) : bool :=
  (y mod 4 =? 0) && (negb (y mod 100 =? 0) || (y mod 400 =? 0)).

Definition _DAYS_IN_MONTH (m : Z) : Z :=
  match m with
  | 1 => 31 | 2 => 28 | 3 => 31 | 4 => 30 | 5 => 31 | 6 => 30
  | 7 => 31 | 8 => 31 | 9 => 30 | 10 => 31 | 11 => 30 | 12 => 31
  | _ => -1
  end.

Definition _DAYS_BEFORE_MONTH (m : Z) : Z :=
  match m with
  | 1 => 0 | 2 => 31 | 3 => 59 | 4 => 90 | 5 => 120 | 6 => 151
  | 7 => 181 | 8 => 212 | 9 => 243 | 10 => 273 | 11 => 304 | 12 => 334
  | _ => -1
  end.

Definition _days_before_year (y : Z) : Z :=
  let y' := y - 1 in y' * 365 + y' / 4 - y' / 100 + y' / 400.

Definition _days_in_month (y m : Z) : Z :=
  if (m =? 2) && _is_leap y then 29 else _DAYS_IN_MONTH m.

Definition _days_before_month (y m : Z) : Z :=
  _DAYS_BEFORE_MONTH m + (if (2 <? m) && _is_leap y then 1 else 0).

Definition _ymd2ord (y m d : Z) : Z :=
  _days_before_year y + _days_before_month y m + d.

Definition _DI400Y : Z := 146097.
Definition _DI100Y : Z := 36524.
Definition _DI4Y : Z := 1461.

Definition _ord2ymd (n0 : Z) : date :=
  let n := n0 - 1 in
  let n400 := n / _DI400Y in let n := n mod _DI400Y in
  let y := n400 * 400 + 1 in
  let n100 := n / _DI100Y in let n := n mod _DI100Y in
  let n4 := n / _DI4Y in let n := n mod _DI4Y in
  let n1 := n / 365 in let n := n mod 365 in
  let y := y + n100 * 100 + n4 * 4 + n1 in
  if (n1 =? 4) || (n100 =? 4) then mkdate (y - 1) 12 31
  else
    let leapyear := (n1 =? 3) && (negb (n4 =? 24) || (n100 =? 3)) in
    let m := Z.shiftr (n + 50) 5 in
    let preceding := _DAYS_BEFORE_MONTH m + (if (2 <? m) && leapyear then 1 else 0) in
    if n <? preceding then
      let m' := m - 1 in
      let preceding' :=
        preceding - (_DAYS_IN_MONTH m' + (if (m' =? 2) && leapyear then 1 else 0)) in
      mkdate y m' (n - preceding' + 1)
    else mkdate y m (n - preceding + 1).

(** [date(y, m, d)]: the constructor checks its fields and raises
    [ValueError] ([None] here) when they are out of range. *)
Definition make_date (y m d : Z) : option date :=
  if (MINYEAR <=? y) && (y <=? MAXYEAR) && (1 <=? m) && (m <=? 12)
     && (1 <=? d) && (d <=? _days_in_month y m)
  then Some (mkdate y m d) else None.

Definition toordinal (d : date) : Z := _ymd2ord (year d) (month d) (day d).

(** [d + timedelta(days=n)]: [timedelta] refuses more than 999999999 days,
    and the sum raises [OverflowError] outside ordinals 1.._MAXORDINAL. *)
Definition add_days (d : date) (n : Z) : option date :=
  if 999999999 <? Z.abs n then None
  else
    let o := toordinal d + n in
    if (0 <? o) && (o <=? _MAXORDINAL) then Some (_ord2ymd o) else None.

(** [(a - b).days] *)
Definition days_between (a b : date) : Z := toordinal a - toordinal b.

End PyDate.
Export PyDate.

(** ** Text: [str.strip], slices, [strptime], [strftime] *)

Definition code (c : ascii) : Z := Z.of_N (N_of_ascii c).

(** [str.isspace] on one character of the Latin-1 range. *)
Definition isspace (c : ascii) : bool :=
  let n := code c in
  ((9 <=? n) && (n <=? 13)) || ((28 <=? n) && (n <=? 32)) || (n =? 133) || (n =? 160).

Fixpoint lstrip (s : string) : string :=
  match s with
  | String c r => if isspace c then lstrip r else s
  | EmptyString => EmptyString
  end.

Fixpoint rstrip (s : string) : string :=
  match s with
  | String c r =>
      match rstrip r with
      | EmptyString => if isspace c then EmptyString else String c EmptyString
      | r' => String c r'
      end
  | EmptyString => EmptyString
  end.

Definition strip (s : string) : string := rstrip (lstrip s).

(** [s[:n]] *)
Fixpoint slice_to (n : nat) (s : string) : string :=
  match n, s with
  | S n', String c r => String c (slice_to n' r)
  | _, _ => EmptyString
  end.

(** [s[n:]] *)
Fixpoint slice_from (n : nat) (s : string) : string :=
  match n, s with
  | S n', String c r => slice_from n' r
  | _, _ => s
  end.

(** SQLite's [instr(s, c) > 0] for a one-character needle. *)
Fixpoint contains (c : ascii) (s : string) : bool :=
  match s with
  | String a r => if Ascii.eqb a c then true else contains c r
  | EmptyString => false
  end.

Definition digit (c : ascii) : option Z :=
  let n := code c in
  if (48 <=? n) && (n <=? 57) then Some (n - 48) else None.

Definition digit_char (n : Z) : ascii := ascii_of_N (Z.to_N (48 + n mod 10)).

Module Strptime.

(** The regular expression [_strptime] builds for [%Y-%m-%d]:
    [(?P<Y>\d\d\d\d)-(?P<m>1[0-2]|0[1-9]|[1-9])-(?P<d>3[0-1]|[1-2]\d|0[1-9]|[1-9]| [1-9])].
    A piece takes a prefix of the text and gives its value and the rest. *)
Definition piece := string -> option (Z * string).

Definition two (p : Z -> Z -> option Z) : piece := fun s =>
  match s with
  | String a (String b r) =>
      match digit a, digit b with
      | Some x, Some y => match p x y with Some v => Some (v, r) | None => None end
      | _, _ => None
      end
  | _ => None
  end.

Definition one_nonzero : piece := fun s =>
  match s with
  | String a r =>
      match digit a with
      | Some x => if 1 <=? x then Some (x, r) else None
      | None => None
      end
  | _ => None
  end.

Definition space_then (p : piece) : piece := fun s =>
  match s with
  | String a r => if Ascii.eqb a " "%char then p r else None
  | _ => None
  end.

Definition dash_then {A} (k : string -> option A) (s : string) : option A :=
  match s with
  | String a r => if Ascii.eqb a "-"%char then k r else None
  | _ => None
  end.

(** Ordered alternation: the first alternative whose continuation matches. *)
Fixpoint first_match {A} (alts : list piece) (k : Z -> string -> option A)
    (s : string) : option A :=
  match alts with
  | [] => None
  | p :: rest =>
      match p s with
      | Some (v, r) =>
          match k v r with
          | Some a => Some a
          | None => first_match rest k s
          end
      | None => first_match rest k s
      end
  end.

Definition m_alts : list piece :=
  [ two (fun x y => if (x =? 1) && (y <=? 2) then Some (10 + y) else None);
    two (fun x y => if (x =? 0) && (1 <=? y) then Some y else None);
    one_nonzero ].

Definition d_alts : list piece :=
  [ two (fun x y => if (x =? 3) && (y <=? 1) then Some (30 + y) else None);
    two (fun x y => if (1 <=? x) && (x <=? 2) then Some (10 * x + y) else None);
    two (fun x y => if (x =? 0) && (1 <=? y) then Some y else None);
    one_nonzero;
    space_then one_nonzero ].

Definition re_Y : piece := fun s =>
  match s with
  | String a (String b (String c (String d r))) =>
      match digit a, digit b, digit c, digit d with
      | Some x, Some y, Some z, Some w => Some (1000 * x + 100 * y + 10 * z + w, r)
      | _, _, _, _ => None
      end
  | _ => None
  end.

(** The match of the whole pattern at the start of the text. *)
Definition re_match (s : string) : option (Z * Z * Z * string) :=
  match re_Y s with
  | Some (y, r) =>
      dash_then (first_match m_alts (fun m r1 =>
        dash_then (first_match d_alts (fun d r2 => Some (y, m, d, r2))) r1)) r
  | None => None
  end.

(** [datetime.strptime(s, "%Y-%m-%d").date()]; [None] stands for the
    [ValueError] of a text that does not match, of unconverted data after
    the match, or of fields that are not a date. *)
Definition strptime (s : string) : option date :=
  match re_match s with
  | Some (y, m, d, EmptyString) => make_date y m d
  | _ => None
  end.

End Strptime.
Export Strptime.

(** [d.strftime("%Y-%m-%d")]: two digits of the month and two of the day,
    zero padded, and the year as the C library writes it for [%Y]: in
    decimal and without padding, so that the year 987 gives three digits
    (glibc; a [date] has 1 <= year <= 9999). From the year 1000 on this is
    the ten-character text [YYYY-MM-DD]. *)
Definition pad2 (n : Z) (k : string) : string :=
  String (digit_char (n / 10)) (String (digit_char n) k).

Definition pad4 (n : Z) (k : string) : string :=
  String (digit_char (n / 1000)) (String (digit_char (n / 100)) (pad2 n k)).

Definition year_text (y : Z) (k : string) : string :=
  if y <? 10 then String (digit_char y) k
  else if y <? 100 then pad2 y k
  else if y <? 1000 then String (digit_char (y / 100)) (pad2 y k)
  else pad4 y k.

Definition _to_date_str (d : date) : string :=
  year_text (year d)
    (String "-" (pad2 (month d) (String "-" (pad2 (day d) EmptyString)))).


(** ** The platform

    What the code takes from outside the repository and this file does not
    define: [datetime.fromisoformat] and the [zoneinfo] conversions, the wall
    clock and SQLite's [date()]. The timezone name is the tool's
    configuration value and names an existing zone. *)

Class Platform := {
  (** aware or naive [datetime.datetime] values *)
  datetime : Type;
  (** [datetime.fromisoformat(s)]; [None] when it raises *)
  fromisoformat : string -> option datetime;
  (** [dt.tzinfo is None] *)
  tzinfo_is_None : datetime -> bool;
  (** [dt.replace(tzinfo=ZoneInfo(tz))] *)
  replace_tzinfo : datetime -> string -> datetime;
  (** [dt.astimezone(ZoneInfo(tz))]; [None] when it raises *)
  astimezone : datetime -> string -> option datetime;
  (** [dt.date()] *)
  datetime_date : datetime -> date;
  (** [datetime.now(ZoneInfo(tz))] at the n-th reading of the clock *)
  now : nat -> string -> datetime;
  (** [dt.isoformat(timespec="seconds")] *)
  isoformat : datetime -> string;
  (** SQLite's [date(text)]; [None] is NULL *)
  sql_date : string -> option string
}.

(** ** Exceptions *)

Inductive exn := ValueError | OverflowError | IntegrityError.

Inductive result (A : Type) :=
  | Ok (a : A)
  | Raise (e : exn).
Arguments Ok {A} a.
Arguments Raise {A} e.

Definition of_option {A} (e : exn) (o : option A) : result A :=
  match o with Some a => Ok a | None => Raise e end.

(** [try: body except Exception: handler] on pure code *)
Definition try_except {A} (body handler : result A) : result A :=
  match body with Ok a => Ok a | Raise _ => handler end.

(** ** The two tables *)

Inductive ExpSource := src_user | src_default.

Global Instance ExpSource_eq_dec : EqDecision ExpSource.
Proof. solve_decision. Defined.

Record Item := mkItem {
  name : string;
  quantity : Q;
  unit : option string;
  in_at : string;
  exp_at : string;
  exp_source : ExpSource;
  created_at : string;
  updated_at : string
}.

Record ShelfLife := mkShelfLife {
  days : Z;
  default_created_at : string;
  default_updated_at : string
}.

(** [inventory] maps the row id to the row; [sqlite_sequence] is the
    largest id AUTOINCREMENT has handed out. *)
Record Db := mkDb {
  shelf_life_defaults : gmap string ShelfLife;
  inventory : gmap Z Item;
  sqlite_sequence : Z
}.

Definition empty_db : Db := mkDb ∅ ∅ 0.

Definition with_defaults (t : gmap string ShelfLife) (db : Db) : Db :=
  mkDb t (inventory db) (sqlite_sequence db).

Definition with_inventory (t : gmap Z Item) (db : Db) : Db :=
  mkDb (shelf_life_defaults db) t (sqlite_sequence db).

(** A connection: what has been committed, what the connection sees
    (committed rows plus the statements executed since the last commit),
    and how often the wall clock has been read. *)
Record World := mkWorld {
  committed : Db;
  current : Db;
  clock : nat
}.

Definition fresh_world : World := mkWorld empty_db empty_db 0.

(** ** State and exceptions

    A computation runs on the connection and returns a value or raises;
    the connection reached is kept in both cases. *)

Definition M (A : Type) : Type := World -> World * result A.

Definition ret {A} (a : A) : M A := fun w => (w, Ok a).

Definition raise {A} (e : exn) : M A := fun w => (w, Raise e).

Definition bind {A B} (m : M A) (k : A -> M B) : M B := fun w =>
  match m w with
  | (w', Ok a) => k a w'
  | (w', Raise e) => (w', Raise e)
  end.

Notation "'let*' x ':=' m 'in' k" := (bind m (fun x => k))
  (at level 10, x pattern, m at level 100, k at level 200).

Definition lift {A} (r : result A) : M A := fun w => (w, r).

(** [conn.execute(statement)]: a statement that fails changes nothing. *)
Definition execute {A} (stmt : Db -> result (Db * A)) : M A := fun w =>
  match stmt (current w) with
  | Ok (db, a) => (mkWorld (committed w) db (clock w), Ok a)
  | Raise e => (w, Raise e)
  end.

(** [conn.execute(select).fetchall()] *)
Definition fetchall {A} (q : Db -> A) : M A := fun w => (w, Ok (q (current w))).

(** [conn.commit()] *)
Definition commit : M Datatypes.unit := fun w =>
  (mkWorld (current w) (current w) (clock w), Ok tt).

Definition tick : M nat := fun w =>
  (mkWorld (committed w) (current w) (S (clock w)), Ok (clock w)).

(** ** SQL statements *)

(** The CHECK constraint of [inventory] that a row can violate
    ([exp_source] is one of the two tags by its type). *)
Definition check_item (it : Item) : bool := Qle_bool 0 (quantity it).

Definition max_rowid (t : gmap Z Item) : Z :=
  map_fold (fun k _ acc => Z.max k acc) 0 t.

(** [INSERT INTO inventory(...) VALUES(...)], returning [lastrowid] *)
Definition insert_item (it : Item) (db : Db) : result (Db * Z) :=
  if check_item it then
    let id := Z.max (sqlite_sequence db) (max_rowid (inventory db)) + 1 in
    Ok (mkDb (shelf_life_defaults db) (<[id := it]> (inventory db)) id, id)
  else Raise IntegrityError.

(** [UPDATE inventory SET ... WHERE id=?] on columns no CHECK mentions,
    returning [rowcount] *)
Definition update_item (id : Z) (f : Item -> Item) (db : Db) : result (Db * Z) :=
  match inventory db !! id with
  | Some r => Ok (with_inventory (<[id := f r]> (inventory db)) db, 1)
  | None => Ok (db, 0)
  end.

(** [DELETE FROM inventory WHERE id=?] *)
Definition delete_item (id : Z) (db : Db) : result (Db * Datatypes.unit) :=
  Ok (with_inventory (delete id (inventory db)) db, tt).

(** A Python [int] that [sqlite3] binds to a statement: a signed 64-bit
    value. Any other [int] raises [OverflowError] at the binding, before the
    statement runs. *)
Definition sqlite_integer (n : Z) : bool := (- 2 ^ 63 <=? n) && (n <? 2 ^ 63).

(** [INSERT INTO shelf_life_defaults ... ON CONFLICT(name) DO UPDATE SET
    days=excluded.days, updated_at=excluded.updated_at], with [days] bound
    from a Python [int], under [CHECK(days > 0)] *)
Definition upsert_default (nm : string) (dys : Z) (ts : string) (db : Db)
    : result (Db * Datatypes.unit) :=
  if sqlite_integer dys then
    if 0 <? dys then
      let row :=
        match shelf_life_defaults db !! nm with
        | Some old => mkShelfLife dys (default_created_at old) ts
        | None => mkShelfLife dys ts ts
        end in
      Ok (with_defaults (<[nm := row]> (shelf_life_defaults db)) db, tt)
    else Raise IntegrityError
  else Raise OverflowError.

Definition set_quantity (q : Q) (ts : string) (it : Item) : Item :=
  mkItem (name it) q (unit it) (in_at it) (exp_at it) (exp_source it)
    (created_at it) ts.

(** [UPDATE inventory SET quantity=?, updated_at=? WHERE id=?], under
    [CHECK(quantity >= 0)] *)
Definition update_quantity (id : Z) (q : Q) (ts : string) (db : Db) : result (Db * Z) :=
  match inventory db !! id with
  | Some r =>
      if Qle_bool 0 q
      then Ok (with_inventory (<[id := set_quantity q ts r]> (inventory db)) db, 1)
      else Raise IntegrityError
  | None => Ok (db, 0)
  end.

Definition set_exp (e : string) (ts : string) (it : Item) : Item :=
  mkItem (name it) (quantity it) (unit it) (in_at it) e (exp_source it)
    (created_at it) ts.

Definition set_exp_source (e : string) (src : ExpSource) (ts : string) (it : Item) : Item :=
  mkItem (name it) (quantity it) (unit it) (in_at it) e src (created_at it) ts.

Definition set_dates (i e : string) (it : Item) : Item :=
  mkItem (name it) (quantity it) (unit it) i e (exp_source it)
    (created_at it) (updated_at it).

(** *** ORDER BY *)

(** Values of [date(text)]: NULL sorts first, text by its characters. *)
Definition null_text_compare (a b : option string) : comparison :=
  match a, b with
  | None, None => Eq
  | None, Some _ => Lt
  | Some _, None => Gt
  | Some x, Some y => String.compare x y
  end.

Definition then_by (c1 c2 : comparison) : comparison :=
  match c1 with Eq => c2 | _ => c1 end.

Definition le_of {A} (cmp : A -> A -> comparison) : relation A :=
  fun a b => cmp a b <> Gt.

Global Instance le_of_dec {A} (cmp : A -> A -> comparison) : RelDecision (le_of cmp) :=
  fun a b => decide (cmp a b <> Gt).

Definition order_by {A} (cmp : A -> A -> comparison) (l : list A) : list A :=
  merge_sort (le_of cmp) l.

(** What makes a three-way comparison the comparison of a total preorder. *)
Record order_laws {K} (c : K -> K -> comparison) : Prop := {
  law_antisym : forall a b, c b a = CompOpp (c a b);
  law_eq : forall a b x, c a b = Eq -> c a x = c b x;
  law_lt : forall a b x, c a b = Lt -> c b x = Lt -> c a x = Lt
}.

(** A row with its id. *)
Notation row := (Z * Item)%type (only parsing).

Definition by_id (a b : row) : comparison := a.1 ?= b.1.

Section Queries.
Context `{Platform}.

(** [ORDER BY date(exp_at) ASC, id ASC] *)
Definition by_exp_id (a b : row) : comparison :=
  then_by (null_text_compare (sql_date (exp_at a.2)) (sql_date (exp_at b.2)))
          (a.1 ?= b.1).

(** [ORDER BY date(exp_at) ASC, date(in_at) ASC, id ASC] *)
Definition by_exp_in_id (a b : row) : comparison :=
  then_by (null_text_compare (sql_date (exp_at a.2)) (sql_date (exp_at b.2)))
    (then_by (null_text_compare (sql_date (in_at a.2)) (sql_date (in_at b.2)))
             (a.1 ?= b.1)).

Definition rows_named (nm : string) (db : Db) : list row :=
  filter (fun r : row => name r.2 = nm) (map_to_list (inventory db)).

(** The SELECT of [consume] *)
Definition select_for_consume (nm : string) (db : Db) : list row :=
  order_by by_exp_id (rows_named nm db).

(** The SELECT of [get_items_by_name] *)
Definition select_by_name (nm : string) (db : Db) : list row :=
  order_by by_exp_in_id (rows_named nm db).

(** The SELECT of [list_inventory] *)
Definition select_all (db : Db) : list row :=
  order_by by_exp_in_id (map_to_list (inventory db)).

End Queries.

(** The SELECT of [update_default_and_recalc_items]; no ORDER BY, rows come
    in rowid order *)
Definition select_default_rows (nm : string) (db : Db) : list row :=
  order_by by_id
    (filter (fun r : row => name r.2 = nm /\ exp_source r.2 = src_default)
            (map_to_list (inventory db))).

(** [length(t) != 10 OR instr(t,'T') > 0] *)
Definition not_date_only (t : string) : bool :=
  negb (Nat.eqb (String.length t) 10) || contains "T"%char t.

Definition legacy_row (r : row) : bool :=
  not_date_only (in_at r.2) || not_date_only (exp_at r.2).

(** The SELECT of [_normalize_existing_rows_to_date_only] *)
Definition select_legacy_rows (db : Db) : list row :=
  order_by by_id (filter (fun r : row => legacy_row r = true) (map_to_list (inventory db))).

(** [SELECT days FROM shelf_life_defaults WHERE name=?] *)
Definition select_default_days (nm : string) (db : Db) : option Z :=
  days <$> shelf_life_defaults db !! nm.

(** ** The storage layer ([db.py]) *)

Section Ledger.
Context `{Platform}.

Definition _now_text (tz : string) : M string :=
  let* n := tick in ret (isoformat (now n tz)).

(** [datetime.now(ZoneInfo(tz)).date()] *)
Definition today (tz : string) : M date :=
  let* n := tick in ret (datetime_date (now n tz)).

(** The body of the second [try] of both parsers. *)
Definition iso_date (s tz : string) : result date :=
  match fromisoformat s with
  | None => Raise ValueError
  | Some dt =>
      if tzinfo_is_None dt then Ok (datetime_date (replace_tzinfo dt tz))
      else
        match astimezone dt tz with
        | Some dt' => Ok (datetime_date dt')
        | None => Raise OverflowError
        end
  end.

Definition _parse_text_to_date (s tz : string) : result date :=
  let s := strip s in
  try_except (of_option ValueError (strptime s))
    (try_except (iso_date s tz)
       (of_option ValueError (strptime (slice_to 10 s)))).

Definition get_default_days (nm : string) : M (option Z) :=
  fetchall (select_default_days nm).

Definition upsert_default_days (nm : string) (dys : Z) (tz : string) : M Datatypes.unit :=
  let* ts := _now_text tz in
  let* _ := execute (upsert_default nm dys ts) in
  commit.

Definition add_item (nm : string) (qty : Q) (u : option string)
    (in_at_date exp_at_date : date) (src : ExpSource) (tz : string) : M Z :=
  let* ts := _now_text tz in
  let* id := execute (insert_item
      (mkItem nm qty u (_to_date_str in_at_date) (_to_date_str exp_at_date) src ts ts)) in
  let* _ := commit in
  ret id.

Fixpoint recalc_loop (rows : list row) (new_days : Z) (ts tz : string) (changed : Z)
    : M Z :=
  match rows with
  | [] => ret changed
  | r :: rest =>
      let* in_d := lift (_parse_text_to_date (in_at r.2) tz) in
      let* new_exp := lift (of_option OverflowError (add_days in_d new_days)) in
      let* _ := execute (update_item r.1 (set_exp (_to_date_str new_exp) ts)) in
      recalc_loop rest new_days ts tz (changed + 1)
  end.

Definition update_default_and_recalc_items (nm : string) (new_days : Z) (tz : string)
    : M Z :=
  let* _ := upsert_default_days nm new_days tz in
  let* rows := fetchall (select_default_rows nm) in
  let* ts := _now_text tz in
  let* changed := recalc_loop rows new_days ts tz 0 in
  let* _ := commit in
  ret changed.

Definition list_inventory : M (list row) := fetchall select_all.

Definition get_items_by_name (nm : string) : M (list row) := fetchall (select_by_name nm).

Definition update_item_exp_by_id (item_id : Z) (new_exp_date : date) (tz : string)
    (src : ExpSource) : M Z :=
  let* ts := _now_text tz in
  let* n := execute (update_item item_id (set_exp_source (_to_date_str new_exp_date) src ts)) in
  let* _ := commit in
  ret n.

(** *** [consume] *)

Record Detail := mkDetail { row_id : Z; consumed : Q; deleted : bool }.

Record Outcome := mkOutcome {
  requested : Q;
  unfulfilled : Q;
  details : list Detail
}.

(** [1e-9] *)
Definition eps : Q := 1 # 1000000000.

(** [max(a, b)] of Python: the first argument unless the second is larger *)
Definition py_max (a b : Q) : Q := if Qle_bool b a then a else b.

Fixpoint consume_loop (rows : list row) (tz : string) (remaining : Q)
    (dets : list Detail) : M (Q * list Detail) :=
  match rows with
  | [] => ret (remaining, dets)
  | r :: rest =>
      if Qle_bool remaining 0 then ret (remaining, dets)
      else
        let row_qty := quantity r.2 in
        if Qle_bool row_qty (remaining + eps)%Q then
          let* _ := execute (delete_item r.1) in
          consume_loop rest tz (remaining - row_qty)%Q
            (dets ++ [mkDetail r.1 row_qty true])
        else
          let new_qty := (row_qty - remaining)%Q in
          let* ts := _now_text tz in
          let* _ := execute (update_quantity r.1 new_qty ts) in
          consume_loop rest tz 0 (dets ++ [mkDetail r.1 remaining false])
  end.

Definition consume (nm : string) (qty : Q) (tz : string) : M Outcome :=
  let* rows := fetchall (select_for_consume nm) in
  let* (remaining, dets) := consume_loop rows tz qty [] in
  let* _ := commit in
  ret (mkOutcome qty (py_max 0 remaining) dets).

(** Modelled from the spec: [discard] is imported by the tool layer from
    [db.py], but the storage file at hand does not define it. The spec
    (4.4, 9) gives it the FIFO algorithm of [consume] on the ledger and the
    same outcome, and leaves the shape of its waste record open; the waste
    log is not part of the two tables modelled here. *)
Definition discard (nm : string) (qty : Q) (tz : string) : M Outcome :=
  consume nm qty tz.

(** *** The migration pass *)

Fixpoint normalize_loop (rows : list row) (tz : string) : M Datatypes.unit :=
  match rows with
  | [] => ret tt
  | r :: rest =>
      let* new_in := lift (_parse_text_to_date (in_at r.2) tz) in
      let* new_exp := lift (_parse_text_to_date (exp_at r.2) tz) in
      let* _ := execute (update_item r.1
                  (set_dates (_to_date_str new_in) (_to_date_str new_exp))) in
      normalize_loop rest tz
  end.

Definition _normalize_existing_rows_to_date_only (tz : string) : M Datatypes.unit :=
  let* rows := fetchall select_legacy_rows in
  match rows with
  | [] => ret tt
  | _ => let* _ := normalize_loop rows tz in commit
  end.

(** ** The tool layer ([inventory_tool.py]) *)

Definition _parse_to_date (s : option string) (tz : string) : M date :=
  match s with
  | None | Some EmptyString => today tz
  | Some s =>
      let s := strip s in
      lift (try_except (of_option ValueError (strptime s))
              (try_except (iso_date s tz)
                 (of_option ValueError (strptime (slice_to 10 s)))))
  end.

Inductive Mode := mode_all | mode_earliest | mode_latest.

(** The fields of the request that the modelled actions read. *)
Record Payload := mkPayload {
  p_name : option string;
  p_quantity : option Q;
  p_unit : option string;
  p_in_at : option string;
  p_exp_days : option Z;
  p_exp_at : option string;
  p_id : option Z;
  p_mode : option Mode
}.

Inductive Message :=
  | missing_arguments
  | not_found
  | uncaught (e : exn).

Inductive Response :=
  | Added (id : Z) (nm : string) (q : Q) (u : option string)
      (in_text exp_text : string) (src : ExpSource)
  | Result (o : Outcome)
  | UpdatedItemCount (n : Z)
  | Error (m : Message).

(** [not name] is true of [None] and of the empty text. *)
Definition given (s : option string) : option string :=
  match s with
  | Some (String c r) => Some (String c r)
  | _ => None
  end.

Definition add_action (p : Payload) (tz : string) : M Response :=
  match given (p_name p), p_quantity p with
  | Some nm, Some qty =>
      let* in_d := _parse_to_date (p_in_at p) tz in
      let* (exp_d, src) :=
        match p_exp_days p, p_exp_at p with
        | Some n, _ =>
            let* d := lift (of_option OverflowError (add_days in_d n)) in
            ret (d, src_user)
        | None, Some raw =>
            let* d := _parse_to_date (Some raw) tz in
            ret (d, src_user)
        | None, None =>
            let* found := get_default_days nm in
            let* dys :=
              match found with
              | None => let* _ := upsert_default_days nm 7 tz in ret 7
              | Some dys => ret dys
              end in
            let* d := lift (of_option OverflowError (add_days in_d dys)) in
            ret (d, src_default)
        end in
      let* item_id := add_item nm qty (p_unit p) in_d exp_d src tz in
      ret (Added item_id nm qty (p_unit p) (_to_date_str in_d) (_to_date_str exp_d) src)
  | _, _ => ret (Error missing_arguments)
  end.

Definition consume_action (p : Payload) (tz : string) : M Response :=
  match given (p_name p), p_quantity p with
  | Some nm, Some qty => let* o := consume nm qty tz in ret (Result o)
  | _, _ => ret (Error missing_arguments)
  end.

Definition discard_action (p : Payload) (tz : string) : M Response :=
  match given (p_name p), p_quantity p with
  | Some nm, Some qty => let* o := discard nm qty tz in ret (Result o)
  | _, _ => ret (Error missing_arguments)
  end.

Definition set_shelf_life_action (p : Payload) (tz : string) : M Response :=
  match given (p_name p), p_exp_days p with
  | Some nm, Some n =>
      let* changed := update_default_and_recalc_items nm n tz in
      ret (UpdatedItemCount changed)
  | _, _ => ret (Error missing_arguments)
  end.

Fixpoint update_targets (targets : list row) (p : Payload) (tz : string) (updated : Z)
    : M Z :=
  match targets with
  | [] => ret updated
  | r :: rest =>
      let* in_d := _parse_to_date (Some (in_at r.2)) tz in
      let* new_exp_d :=
        match p_exp_days p with
        | Some n => lift (of_option OverflowError (add_days in_d n))
        | None => _parse_to_date (p_exp_at p) tz
        end in
      let* n := update_item_exp_by_id r.1 new_exp_d tz src_user in
      update_targets rest p tz (updated + n)
  end.

Definition update_expiry_action (p : Payload) (tz : string) : M Response :=
  match p_id p, given (p_name p) with
  | None, None => ret (Error missing_arguments)
  | Some item_id, _ =>
      let* all := list_inventory in
      match List.find (fun r : row => r.1 =? item_id) all with
      | None => ret (Error not_found)
      | Some r =>
          let* in_d := _parse_to_date (Some (in_at r.2)) tz in
          match p_exp_days p, p_exp_at p with
          | Some n, _ =>
              let* new_exp_d := lift (of_option OverflowError (add_days in_d n)) in
              let* n := update_item_exp_by_id item_id new_exp_d tz src_user in
              ret (UpdatedItemCount n)
          | None, Some raw =>
              let* new_exp_d := _parse_to_date (Some raw) tz in
              let* n := update_item_exp_by_id item_id new_exp_d tz src_user in
              ret (UpdatedItemCount n)
          | None, None => ret (Error missing_arguments)
          end
      end
  | None, Some nm =>
      let* rows := get_items_by_name nm in
      match rows with
      | [] => ret (UpdatedItemCount 0)
      | first :: _ =>
          match p_exp_days p, p_exp_at p with
          | None, None => ret (Error missing_arguments)
          | _, _ =>
              let targets :=
                match p_mode p with
                | Some mode_earliest => [first]
                | Some mode_latest => [List.last rows first]
                | _ => rows
                end in
              let* updated := update_targets targets p tz 0 in
              ret (UpdatedItemCount updated)
          end
      end
  end.

Inductive Action := add | consume_ | discard_ | set_shelf_life | update_expiry.

(** [_inventory_fn]: the branch of the action under the blanket
    [except Exception], which turns whatever is raised into an error
    response and leaves the connection as the exception found it. *)
Definition _inventory_fn (a : Action) (p : Payload) (tz : string) (w : World)
    : World * Response :=
  let branch :=
    match a with
    | add => add_action p tz
    | consume_ => consume_action p tz
    | discard_ => discard_action p tz
    | set_shelf_life => set_shelf_life_action p tz
    | update_expiry => update_expiry_action p tz
    end in
  match branch w with
  | (w', Ok r) => (w', r)
  | (w', Raise e) => (w', Error (uncaught e))
  end.

End Ledger.

(** ** The loop of [consume], with its arithmetic left open

    [consume_loop] computes with exact rationals. Here is what the loop does
    with the numbers once more, for any arithmetic: the rows are the fetched
    pairs of an id and a quantity, and the statements that the loop executes
    are collected instead of being run. With the operations of binary64
    this is the loop as Python runs it, rounding included; with those of the
    rationals it is [consume_loop]. *)

Class Arithmetic := {
  number : Type;
  (** [0.0] and [1e-9] *)
  fzero : number;
  feps : number;
  fadd : number -> number -> number;
  fsub : number -> number -> number;
  (** [a <= b] and [a < b] *)
  fle : number -> number -> bool;
  flt : number -> number -> bool;
  fle_zero : fle fzero fzero = true
}.

Section Plan.
Context {A : Arithmetic}.

(** [max(a, b)] of Python: [b] when [b > a], else [a] *)
Definition fmax (a b : number) : number := if flt a b then b else a.

(** [DELETE FROM inventory WHERE id=?] and
    [UPDATE inventory SET quantity=?, updated_at=? WHERE id=?] *)
Inductive Statement :=
  | DeleteRow (id : Z)
  | SetQuantity (id : Z) (q : number).

Record Entry := mkEntry {
  entry_id : Z;
  entry_consumed : number;
  entry_deleted : bool
}.

Record Report := mkReport {
  report_requested : number;
  report_unfulfilled : number;
  report_details : list Entry
}.

Fixpoint plan_loop (rows : list (Z * number)) (remaining : number)
    (stmts : list Statement) (dets : list Entry)
    : list Statement * list Entry * number :=
  match rows with
  | [] => (stmts, dets, remaining)
  | r :: rest =>
      if fle remaining fzero then (stmts, dets, remaining)
      else
        let row_qty := r.2 in
        if fle row_qty (fadd remaining feps) then
          plan_loop rest (fsub remaining row_qty)
            (stmts ++ [DeleteRow r.1]) (dets ++ [mkEntry r.1 row_qty true])
        else
          let new_qty := fsub row_qty remaining in
          plan_loop rest fzero
            (stmts ++ [SetQuantity r.1 new_qty]) (dets ++ [mkEntry r.1 remaining false])
  end.

Definition consume_plan (rows : list (Z * number)) (qty : number)
    : list Statement * Report :=
  let '(stmts, dets, remaining) := plan_loop rows qty [] [] in
  (stmts, mkReport qty (fmax fzero remaining) dets).


End Plan.

(** The arithmetic of the rationals, which is that of [consume_loop]. *)
Definition exact : Arithmetic := {|
  number := Q;
  fzero := 0%Q;
  feps := eps;
  fadd := Qplus;
  fsub := Qminus;
  fle := Qle_bool;
  flt := fun a b => negb (Qle_bool b a);
  fle_zero := eq_refl
|}.

(** The arithmetic of a Python [float]: IEEE 754 binary64, rounding to
    nearest, ties to even; the tolerance is the binary64 value nearest to
    1e-9, which is what the literal [1e-9] denotes. *)
Definition binary64 : Arithmetic := {|
  number := float;
  fzero := 0%float;
  feps := 0x1.12e0be826d695p-30%float;
  fadd := PrimFloat.add;
  fsub := PrimFloat.sub;
  fle := PrimFloat.leb;
  flt := PrimFloat.ltb;
  fle_zero := eq_refl
|}.





(** ** A platform to run examples on

    Its clock starts on 2024-01-01 at midnight and advances by one second
    at each reading; [fromisoformat] answers the texts
    [YYYY-MM-DDTHH:MM:SS] without offset, which stay naive, and no other;
    [date()] answers the ten-character texts [YYYY-MM-DD] of a date, which
    it returns unchanged. The examples below keep to dates in that form, on which the
    parsers stop at their first stage. *)

Module Reference.

Definition two_digits (s : string) : option (Z * string) :=
  match s with
  | String a (String b r) =>
      match digit a, digit b with
      | Some x, Some y => Some (10 * x + y, r)
      | _, _ => None
      end
  | _ => None
  end.

Definition expect (c : ascii) (s : string) : option string :=
  match s with
  | String a r => if Ascii.eqb a c then Some r else None
  | EmptyString => None
  end.

Definition canonical (s : string) : bool :=
  match strptime s with
  | Some d => Nat.eqb (String.length s) 10
  | None => false
  end.

Definition ref_fromisoformat (s : string) : option (date * Z) :=
  if canonical (slice_to 10 s) then
    match strptime (slice_to 10 s), expect "T" (slice_from 10 s) with
    | Some d, Some r =>
        match two_digits r with
        | Some (h, r1) =>
            match expect ":" r1 with
            | Some r2 =>
                match two_digits r2 with
                | Some (mi, r3) =>
                    match expect ":" r3 with
                    | Some r4 =>
                        match two_digits r4 with
                        | Some (se, EmptyString) =>
                            if (h <? 24) && (mi <? 60) && (se <? 60)
                            then Some (d, 3600 * h + 60 * mi + se) else None
                        | _ => None
                        end
                    | None => None
                    end
                | None => None
                end
            | None => None
            end
        | None => None
        end
    | _, _ => None
    end
  else None.

Definition ref_now (n : nat) (tz : string) : date * Z :=
  (mkdate 2024 1 1, Z.of_nat n mod 86400).

Definition ref_isoformat (dt : date * Z) : string :=
  _to_date_str dt.1 +:+ "T" +:+ pad2 (dt.2 / 3600) (String ":" (pad2 (dt.2 / 60 mod 60)
    (String ":" (pad2 (dt.2 mod 60) EmptyString)))).

Definition ref_sql_date (s : string) : option string :=
  if canonical s then Some s else None.

Definition platform : Platform := {|
  datetime := date * Z;
  fromisoformat := ref_fromisoformat;
  tzinfo_is_None := fun _ => true;
  replace_tzinfo := fun dt _ => dt;
  astimezone := fun dt _ => Some dt;
  datetime_date := fst;
  now := ref_now;
  isoformat := ref_isoformat;
  sql_date := ref_sql_date
|}.

End Reference.

(** ** Notions the statements use *)


(** The CHECK constraints hold of every row of both tables. *)
Definition checks_hold (db : Db) : Prop :=
  map_Forall (fun _ it => check_item it = true) (inventory db) /\
  map_Forall (fun _ sl => 0 < days sl) (shelf_life_defaults db).

Global Instance checks_hold_dec (db : Db) : Decision (checks_hold db).
Proof. unfold checks_hold. apply _. Defined.

Definition touched (o : Outcome) : list Z := map row_id (details o).

(** Both databases of the connection satisfy the constraints. *)
Definition consistent (w : World) : Prop :=
  checks_hold (current w) /\ checks_hold (committed w).

(** A computation keeps a property of the connection, whether it returns
    or raises. *)
Definition preserves {A} (P : World -> Prop) (m : M A) : Prop :=
  forall w, P w -> P (m w).1.

Section Notions.
Context `{Platform}.

(** The ledger states that calls of the tool reach from an empty database. *)
Inductive reachable : World -> Prop :=
  | reachable_fresh : reachable fresh_world
  | reachable_call a p tz w :
      reachable w -> reachable (_inventory_fn a p tz w).1.

(** The three stages of the normalizer in the order the spec gives them
    (4.1), on a text [t]: the exact date, then the ISO date-time brought to
    the target zone, then the first ten characters. *)
Definition three_stages (t tz : string) : result date :=
  match strptime t with
  | Some d => Ok d
  | None =>
      let fallback := of_option ValueError (strptime (slice_to 10 t)) in
      match fromisoformat t with
      | Some dt =>
          if tzinfo_is_None dt then Ok (datetime_date (replace_tzinfo dt tz))
          else
            match astimezone dt tz with
            | Some dt' => Ok (datetime_date dt')
            | None => fallback
            end
      | None => fallback
      end
  end.

(** The normalizer as the spec words it: an absent value is today, a text
    goes through the three stages as it stands. *)
Definition normalizer_spec (s : option string) (tz : string) : M date :=
  match s with
  | None => today tz
  | Some t => lift (three_stages t tz)
  end.

(** The expiry text that a recalculation with [new_days] writes on a batch:
    its stock-in date plus the days; [None] when the stock-in text does not
    parse or the sum is not a date. *)
Definition recalculated (new_days : Z) (tz : string) (it : Item) : option string :=
  match _parse_text_to_date (in_at it) tz with
  | Ok d => _to_date_str <$> add_days d new_days
  | Raise _ => None
  end.

(** Every batch that the recalculation for [nm] selects can be recalculated. *)
Definition recalc_ready (nm : string) (new_days : Z) (tz : string) (db : Db) : bool :=
  forallb (fun r : row => bool_decide (is_Some (recalculated new_days tz r.2)))
    (select_default_rows nm db).

(** What a recalculation with [new_days], run at the time [ts], makes of a
    batch: the expiry is the stock-in date plus the days, written as a
    date, the time of the update is [ts], and the other columns stay. The
    stock-in date is what the three stages read in the stripped text. *)
Definition recalculated_to (new_days : Z) (tz ts : string) (it it' : Item) : Prop :=
  name it' = name it /\ quantity it' = quantity it /\ unit it' = unit it /\
  in_at it' = in_at it /\ exp_source it' = exp_source it /\
  created_at it' = created_at it /\ updated_at it' = ts /\
  exists d e,
    three_stages (strip (in_at it)) tz = Ok d /\
    add_days d new_days = Some e /\
    exp_at it' = _to_date_str e.




(** One walk of [consume] over the fetched rows, as a relation between the
    remaining amount, the inventory and the clock before and after, and the
    detail entries it appends. *)
Inductive walked (tz : string) :
    list row -> Q -> gmap Z Item -> nat -> list Detail -> Q -> gmap Z Item -> nat -> Prop :=
  | walked_end rem inv c :
      walked tz [] rem inv c [] rem inv c
  | walked_break r rest rem inv c :
      (rem <= 0)%Q ->
      walked tz (r :: rest) rem inv c [] rem inv c
  | walked_delete r rest rem inv c ds rem' inv' c' :
      (0 < rem)%Q ->
      (quantity r.2 <= rem + eps)%Q ->
      walked tz rest (rem - quantity r.2)%Q (delete r.1 inv) c ds rem' inv' c' ->
      walked tz (r :: rest) rem inv c
        (mkDetail r.1 (quantity r.2) true :: ds) rem' inv' c'
  | walked_decrement r rest rem inv c :
      (0 < rem)%Q ->
      (rem + eps < quantity r.2)%Q ->
      walked tz (r :: rest) rem inv c
        [mkDetail r.1 rem false] 0%Q
        (alter (set_quantity (quantity r.2 - rem)%Q (isoformat (now c tz))) r.1 inv)
        (S c).

End Notions.

(** ** Example states *)

Module Examples.
Import Reference.
Local Existing Instance platform.

Definition tz : string := "Asia/Shanghai".


Definition stocked (nm : string) (q : Q) (in_text exp_text : string) : Payload :=
  mkPayload (Some nm) (Some q) None (Some in_text) None (Some exp_text) None None.

Definition stocked_by_default (nm : string) (q : Q) (in_text : string) : Payload :=
  mkPayload (Some nm) (Some q) None (Some in_text) None None None None.

Definition shelf_life (nm : string) (n : Z) : Payload :=
  mkPayload (Some nm) None None None (Some n) None None None.

(** One batch of milk of quantity 1 + 2^-31. *)
Definition one_milk : World :=
  (_inventory_fn add (stocked "milk" (2147483649 # 2147483648) "2024-01-01" "2024-01-04")
     tz fresh_world).1.

(** What an add of quantity zero leaves. *)
Definition zero_milk : World :=
  (_inventory_fn add (stocked "milk" 0 "2024-01-01" "2024-01-04") tz fresh_world).1.

(** Two batches of milk that expire on the same day; the one stocked later
    has the smaller id. *)
Definition same_expiry : World :=
  (_inventory_fn add (stocked "milk" 1 "2024-01-01" "2024-01-10") tz
     (_inventory_fn add (stocked "milk" 1 "2024-01-03" "2024-01-10") tz fresh_world).1).1.

(** Milk and eggs. *)
Definition milk_and_eggs : World :=
  (_inventory_fn add (stocked "eggs" 6 "2024-01-01" "2024-01-02") tz
     (_inventory_fn add (stocked "milk" 1 "2024-01-02" "2024-01-09") tz
        (_inventory_fn add (stocked "milk" 2 "2024-01-01" "2024-01-04") tz fresh_world).1).1).1.

(** One batch of milk whose expiry came from the implicit default. *)
Definition default_milk : World :=
  (_inventory_fn add (stocked_by_default "milk" 1 "2024-01-02") tz fresh_world).1.

(** A legacy row: dates stored as date-times. *)
Definition legacy : World :=
  let db := mkDb ∅
    {[ 1 := mkItem "milk" 1 None "2024-01-02T10:00:00" "2024-01-09T10:00:00"
              src_user "2024-01-02T10:00:00" "2024-01-02T10:00:00" ]} 1 in
  mkWorld db db 0.



(** Two batches of milk with a default expiry; the second one is stocked
    in the last year of the calendar. *)
Definition two_defaults : World :=
  (_inventory_fn add (stocked_by_default "milk" 1 "9999-12-01") tz
     (_inventory_fn add (stocked_by_default "milk" 1 "2024-01-02") tz fresh_world).1).1.

End Examples.

(** ** More of the storage layer *)

Section Storage.
Context `{Platform}.

(** [migrate]: the script creates the tables that are missing, none on a
    database that has them, and what is pending is committed; then the
    migration pass runs, in the zone that the source gives it. *)
Definition migrate : M Datatypes.unit :=
  let* _ := commit in
  _normalize_existing_rows_to_date_only "Asia/Shanghai".

End Storage.

(** *** Profiles: the list columns *)

Section Lists.
(** [json.dumps(out, ensure_ascii=False)], from outside the repository *)
Variable json_dumps : list string -> string.

(** The loop of [_dumps_unique]: [seen] is the set, [out] the list. *)
Fixpoint dumps_unique_loop (arr : list string) (seen : gset string) (out : list string)
    : list string :=
  match arr with
  | [] => out
  | x :: rest =>
      let t := strip x in
      if decide (t = EmptyString \/ t ∈ seen) then dumps_unique_loop rest seen out
      else dumps_unique_loop rest ({[t]} ∪ seen) (out ++ [t])
  end.

Definition _dumps_unique (arr : list string) : string :=
  json_dumps (dumps_unique_loop arr ∅ []).

End Lists.

(** *** [expiring_within] *)

Section Expiring.
Context `{Platform}.

(** [date(exp_at) >= date(?) AND date(exp_at) <= date(?)]: a comparison
    with NULL is not true. *)
Definition in_window (lo hi : option string) (r : row) : bool :=
  match sql_date (exp_at r.2), lo, hi with
  | Some e, Some a, Some b =>
      negb (match String.compare e a with Lt => true | _ => false end)
      && negb (match String.compare e b with Gt => true | _ => false end)
  | _, _, _ => false
  end.

(** The SELECT of [expiring_within] *)
Definition select_expiring (start stop : string) (db : Db) : list row :=
  order_by by_exp_in_id
    (filter (fun r : row => in_window (sql_date start) (sql_date stop) r = true)
            (map_to_list (inventory db))).

Definition expiring_within (today_date : date) (dys : Z) : M (list row) :=
  let start := _to_date_str today_date in
  let* stop_date := lift (of_option OverflowError (add_days today_date dys)) in
  fetchall (select_expiring start (_to_date_str stop_date)).

End Expiring.
(** * Properties *)

(** ** Rationals *)

Lemma Qle_bool_true (x y : Q) : Qle_bool x y = true <-> (x <= y)%Q.
Proof. apply Qle_bool_iff. Qed.

Lemma Qle_bool_false (x y : Q) : Qle_bool x y = false <-> (y < x)%Q.
Proof.
  split; intros Hxy.
  - apply Qnot_le_lt. intros Hle. apply Qle_bool_iff in Hle. congruence.
  - destruct (Qle_bool x y) eqn:E; [|done].
    apply Qle_bool_iff in E. exfalso. apply (Qlt_not_le _ _ Hxy E).
Qed.

Lemma eps_pos : (0 < eps)%Q.
Proof. reflexivity. Qed.


(** ** Records and maps *)

Lemma world_eta (w : World) : mkWorld (committed w) (current w) (clock w) = w.
Proof. by destruct w. Qed.

Lemma db_eta (db : Db) : with_inventory (inventory db) db = db.
Proof. by destruct db. Qed.

Lemma alter_absent (f : Item -> Item) (i : Z) (m : gmap Z Item) :
  m !! i = None -> alter f i m = m.
Proof.
  intros Hi. apply map_eq. intros j. rewrite lookup_alter.
  case_decide; subst; by rewrite ?Hi.
Qed.

Lemma alter_present (f : Item -> Item) (i : Z) (m : gmap Z Item) (x : Item) :
  m !! i = Some x -> <[i := f x]> m = alter f i m.
Proof.
  intros Hi. apply map_eq. intros j. rewrite lookup_alter, lookup_insert.
  case_decide; subst; by rewrite ?Hi.
Qed.

(** ** The walk of [consume] *)

Section Walk.
Context `{Platform}.

Lemma consume_loop_exhausted (rows : list row) (tz : string) (dets : list Detail) (w : World) :
  consume_loop rows tz 0 dets w = (w, Ok (0%Q, dets)).
Proof. by destruct rows. Qed.

(** The loop never raises, and what it does is a walk. *)
Lemma consume_loop_walked (rows : list row) (tz : string) :
  forall rem dets w,
  exists ds rem' inv' c',
    consume_loop rows tz rem dets w =
      (mkWorld (committed w) (with_inventory inv' (current w)) c', Ok (rem', (dets ++ ds)%list))
    /\ walked tz rows rem (inventory (current w)) (clock w) ds rem' inv' c'.
Proof.
  induction rows as [|r rest IH]; intros rem dets w.
  - exists [], rem, (inventory (current w)), (clock w). split; [|constructor].
    simpl. unfold ret. by rewrite app_nil_r, db_eta, world_eta.
  - simpl. destruct (Qle_bool rem 0) eqn:Hbreak.
    { exists [], rem, (inventory (current w)), (clock w). split.
      - unfold ret. by rewrite app_nil_r, db_eta, world_eta.
      - apply walked_break. by apply Qle_bool_true. }
    apply Qle_bool_false in Hbreak.
    destruct (Qle_bool (quantity r.2) (rem + eps)) eqn:Hwhole.
    + apply Qle_bool_true in Hwhole.
      set (w1 := mkWorld (committed w)
                   (with_inventory (delete r.1 (inventory (current w))) (current w)) (clock w)).
      destruct (IH (rem - quantity r.2)%Q (dets ++ [mkDetail r.1 (quantity r.2) true])%list w1)
        as (ds & rem' & inv' & c' & Hrun & Hwalk).
      exists (mkDetail r.1 (quantity r.2) true :: ds), rem', inv', c'. split.
      * unfold bind, execute, delete_item. simpl. fold w1. rewrite Hrun.
        by rewrite <- app_assoc.
      * by apply walked_delete.
    + apply Qle_bool_false in Hwhole.
      exists [mkDetail r.1 rem false], 0%Q,
        (alter (set_quantity (quantity r.2 - rem)%Q (isoformat (now (clock w) tz))) r.1
               (inventory (current w))), (S (clock w)).
      split; [|by apply walked_decrement].
      assert (Hchk : Qle_bool 0 (quantity r.2 - rem) = true).
      { apply Qle_bool_true. pose proof eps_pos. lra. }
      unfold bind, _now_text, tick, execute, update_quantity, ret. simpl.
      rewrite Hchk.
      destruct (inventory (current w) !! r.1) as [x|] eqn:Hx.
      * simpl. rewrite consume_loop_exhausted. simpl.
        by rewrite (alter_present _ _ _ _ Hx).
      * simpl. rewrite consume_loop_exhausted.
        rewrite (alter_absent _ _ _ Hx). by rewrite db_eta.
Qed.

(** [consume] as a walk over the rows it fetched, followed by a commit. *)
Lemma consume_walked (nm : string) (qty : Q) (tz : string) (w : World) :
  exists ds rem' inv' c',
    consume nm qty tz w =
      (let db := with_inventory inv' (current w) in mkWorld db db c',
       Ok (mkOutcome qty (py_max 0 rem') ds))
    /\ walked tz (select_for_consume nm (current w)) qty
         (inventory (current w)) (clock w) ds rem' inv' c'.
Proof.
  destruct (consume_loop_walked (select_for_consume nm (current w)) tz qty [] w)
    as (ds & rem' & inv' & c' & Hrun & Hwalk).
  exists ds, rem', inv', c'. split; [|done].
  unfold consume, bind, fetchall. rewrite Hrun. reflexivity.
Qed.

(** *** What a walk does *)

Lemma walked_idle tz rows rem inv c ds rem' inv' c' :
  walked tz rows rem inv c ds rem' inv' c' ->
  (rem <= 0)%Q -> ds = [] /\ rem' = rem /\ inv' = inv /\ c' = c.
Proof. destruct 1; intros; try done; lra. Qed.

(** The entries follow the rows, position by position; an entry that is
    not a deletion is the last one. *)
Lemma walked_positions tz rows rem inv c ds rem' inv' c' :
  walked tz rows rem inv c ds rem' inv' c' ->
  forall (i : nat) d, ds !! i = Some d ->
    exists r, rows !! i = Some r /\ row_id d = r.1 /\
      ((deleted d = true /\ consumed d = quantity r.2) \/
       (deleted d = false /\ S i = length ds)).
Proof.
  induction 1; intros i d Hd; try done.
  - destruct i as [|i]; simpl in Hd.
    + injection Hd as <-. exists r. simpl. auto.
    + destruct (IHwalked i d Hd) as (r' & Hr' & Hid & Hcase).
      exists r'. simpl. split; [done|]. split; [done|].
      destruct Hcase as [?|[? ?]]; [by left|right]. split; [done|]. simpl. lia.
  - destruct i as [|i]; simpl in Hd; [|done].
    injection Hd as <-. exists r. simpl. auto.
Qed.

Lemma walked_prefix tz rows rem inv c ds rem' inv' c' :
  walked tz rows rem inv c ds rem' inv' c' ->
  map row_id ds = (take (length ds) rows).*1.
Proof. induction 1; simpl; try done. by rewrite IHwalked. Qed.

(** Rows that got no entry are as they were. *)
Lemma walked_frame tz rows rem inv c ds rem' inv' c' :
  walked tz rows rem inv c ds rem' inv' c' ->
  forall j, j ∉ map row_id ds -> inv' !! j = inv !! j.
Proof.
  induction 1; intros j Hj; try done.
  - simpl in Hj. apply not_elem_of_cons in Hj as [Hne Hj].
    rewrite (IHwalked j Hj). by apply lookup_delete_ne.
  - simpl in Hj. apply not_elem_of_cons in Hj as [Hne _].
    rewrite lookup_alter. by case_decide.
Qed.

(** A deleted row is gone, as long as no id occurs twice among the rows. *)
Lemma walked_deleted tz rows rem inv c ds rem' inv' c' :
  walked tz rows rem inv c ds rem' inv' c' ->
  NoDup rows.*1 ->
  forall d, d ∈ ds -> deleted d = true -> inv' !! row_id d = None.
Proof.
  induction 1; intros Hnd d Hd Hdel; try by inversion Hd.
  - simpl in Hnd. apply NoDup_cons in Hnd as [Hfresh Hnd].
    apply elem_of_cons in Hd as [->|Hd].
    + simpl. rewrite (walked_frame _ _ _ _ _ _ _ _ _ H2).
      * apply lookup_delete_eq.
      * rewrite (walked_prefix _ _ _ _ _ _ _ _ _ H2). intros Hin. apply Hfresh.
        apply list_elem_of_fmap in Hin as (x & -> & Hx).
        apply list_elem_of_fmap. exists x. split; [done|].
        by apply (subseteq_take (length ds) rest).
    + by apply IHwalked.
  - apply list_elem_of_singleton in Hd as ->. done.
Qed.

(** A row that was decremented keeps more than the tolerance. *)
Lemma walked_changed tz rows rem inv c ds rem' inv' c' :
  walked tz rows rem inv c ds rem' inv' c' ->
  (forall r, r ∈ rows -> inv !! r.1 = Some r.2) ->
  NoDup rows.*1 ->
  forall j it', inv' !! j = Some it' -> inv !! j = Some it' \/ (eps < quantity it')%Q.
Proof.
  induction 1; intros Hrows Hnd j it' Hj; auto.
  - simpl in Hnd. apply NoDup_cons in Hnd as [Hfresh Hnd].
    assert (Hrows' : forall x, x ∈ rest -> delete r.1 inv !! x.1 = Some x.2).
    { intros x Hx. rewrite lookup_delete_ne; [apply Hrows; by right|].
      intros Heq. apply Hfresh. rewrite Heq. apply list_elem_of_fmap. by exists x. }
    destruct (IHwalked Hrows' Hnd j it' Hj) as [Hsame|Hpos]; [|by right].
    left. destruct (decide (r.1 = j)) as [<-|Hne].
    + by rewrite lookup_delete_eq in Hsame.
    + by rewrite lookup_delete_ne in Hsame.
  - rewrite lookup_alter in Hj. case_decide as Hid; [|by left].
    subst j. rewrite (Hrows r) in Hj by left. simpl in Hj.
    injection Hj as <-. right. simpl. lra.
Qed.


End Walk.

(** ** The loop of [consume] for any arithmetic *)

Section PlanFacts.
Context {A : Arithmetic}.



End PlanFacts.


(** ** ORDER BY *)

Lemma order_laws_refl {K} (c : K -> K -> comparison) (a : K) :
  order_laws c -> c a a = Eq.
Proof.
  intros L. pose proof (law_antisym c L a a) as E. by destruct (c a a).
Qed.

Lemma order_laws_eq_r {K} (c : K -> K -> comparison) (a b x : K) :
  order_laws c -> c a b = Eq -> c x a = c x b.
Proof.
  intros L E. rewrite (law_antisym c L a x), (law_antisym c L b x).
  by rewrite (law_eq c L a b x E).
Qed.

Global Instance le_of_total {K} (c : K -> K -> comparison) :
  order_laws c -> Total (le_of c).
Proof.
  intros L a b. unfold le_of. rewrite (law_antisym c L a b).
  destruct (c a b); simpl; auto.
Qed.

Global Instance le_of_transitive {K} (c : K -> K -> comparison) :
  order_laws c -> Transitive (le_of c).
Proof.
  intros L a b x. unfold le_of. intros Hab Hbx.
  destruct (c a b) eqn:Eab; [| |done].
  - by rewrite (law_eq c L a b x Eab).
  - destruct (c b x) eqn:Ebx; [| |done].
    + rewrite <- (order_laws_eq_r c b x a L Ebx). by rewrite Eab.
    + by rewrite (law_lt c L a b x Eab Ebx).
Qed.

Lemma Z_compare_laws : order_laws Z.compare.
Proof.
  split.
  - intros a b. apply Z.compare_antisym.
  - intros a b x E. apply Z.compare_eq in E. by subst.
  - intros a b x. rewrite !Z.compare_lt_iff. lia.
Qed.

Lemma ascii_compare_lt_trans (a b x : ascii) :
  Ascii.compare a b = Lt -> Ascii.compare b x = Lt -> Ascii.compare a x = Lt.
Proof. unfold Ascii.compare. rewrite !N.compare_lt_iff. lia. Qed.

Lemma string_compare_lt_trans (a : string) :
  forall b x, String.compare a b = Lt -> String.compare b x = Lt -> String.compare a x = Lt.
Proof.
  induction a as [|ca a IH]; intros [|cb b] [|cx x]; simpl; try done.
  destruct (Ascii.compare ca cb) eqn:Eab; [| |done].
  - apply Ascii.compare_eq_iff in Eab as ->.
    destruct (Ascii.compare cb cx); try done. apply IH.
  - intros _. destruct (Ascii.compare cb cx) eqn:Ebx; [| |done].
    + apply Ascii.compare_eq_iff in Ebx as <-. by rewrite Eab.
    + by rewrite (ascii_compare_lt_trans _ _ _ Eab Ebx).
Qed.

Lemma string_compare_laws : order_laws String.compare.
Proof.
  split.
  - intros a b. apply String.compare_antisym.
  - intros a b x E. apply String.compare_eq_iff in E. by subst.
  - intros a b x. apply string_compare_lt_trans.
Qed.

Lemma null_text_compare_laws : order_laws null_text_compare.
Proof.
  pose proof string_compare_laws as L. split.
  - intros [a|] [b|]; simpl; try done. apply (law_antisym _ L).
  - intros [a|] [b|] [x|]; simpl; try done. apply (law_eq _ L).
  - intros [a|] [b|] [x|]; simpl; try done. apply (law_lt _ L).
Qed.

(** Lexicographic combination, and comparison through a key. *)
Lemma then_by_laws {K} (c1 c2 : K -> K -> comparison) :
  order_laws c1 -> order_laws c2 ->
  order_laws (fun a b => then_by (c1 a b) (c2 a b)).
Proof.
  intros L1 L2. split.
  - intros a b. rewrite (law_antisym _ L1 a b), (law_antisym _ L2 a b).
    by destruct (c1 a b).
  - intros a b x. unfold then_by.
    destruct (c1 a b) eqn:E1; try done. intros E2.
    by rewrite (law_eq _ L1 a b x E1), (law_eq _ L2 a b x E2).
  - intros a b x. unfold then_by.
    destruct (c1 a b) eqn:E1; try done.
    + intros E2. rewrite (law_eq _ L1 a b x E1).
      destruct (c1 b x); try done. apply (law_lt _ L2 a b x E2).
    + intros _. destruct (c1 b x) eqn:E1'; try done.
      * intros _. rewrite <- (order_laws_eq_r c1 b x a L1 E1'). by rewrite E1.
      * intros _. by rewrite (law_lt _ L1 a b x E1 E1').
Qed.

Lemma on_key_laws {K A} (c : K -> K -> comparison) (f : A -> K) :
  order_laws c -> order_laws (fun a b => c (f a) (f b)).
Proof.
  intros L. split.
  - intros a b. apply (law_antisym _ L).
  - intros a b x. apply (law_eq _ L).
  - intros a b x. apply (law_lt _ L).
Qed.

Lemma by_id_laws : order_laws by_id.
Proof. apply (on_key_laws Z.compare fst Z_compare_laws). Qed.

Lemma by_exp_id_laws `{Platform} : order_laws by_exp_id.
Proof.
  apply (then_by_laws
           (fun a b : row => null_text_compare (sql_date (exp_at a.2)) (sql_date (exp_at b.2)))
           (fun a b : row => a.1 ?= b.1)).
  - apply (on_key_laws null_text_compare (fun a : row => sql_date (exp_at a.2))
             null_text_compare_laws).
  - apply (on_key_laws Z.compare fst Z_compare_laws).
Qed.

(** *** What a SELECT returns *)

Lemma order_by_perm {A} (c : A -> A -> comparison) (l : list A) : order_by c l ≡ₚ l.
Proof. apply merge_sort_Permutation. Qed.

Lemma order_by_sorted {A} (c : A -> A -> comparison) (l : list A) :
  order_laws c -> StronglySorted (le_of c) (order_by c l).
Proof.
  intros L. unfold order_by.
  apply (@StronglySorted_merge_sort _ (le_of c) _ (le_of_transitive c L) (le_of_total c L)).
Qed.

Section Select.
Context (c : row -> row -> comparison) (P : row -> Prop) `{!forall r, Decision (P r)}.

Lemma elem_of_select (t : gmap Z Item) (r : row) :
  r ∈ order_by c (filter P (map_to_list t)) <-> t !! r.1 = Some r.2 /\ P r.
Proof.
  rewrite order_by_perm, list_elem_of_filter. destruct r as [id it]. simpl.
  pose proof (elem_of_map_to_list t id it). tauto.
Qed.

Lemma NoDup_select (t : gmap Z Item) :
  NoDup (order_by c (filter P (map_to_list t))).*1.
Proof.
  rewrite order_by_perm.
  eapply sublist_NoDup; [apply (NoDup_fst_map_to_list t)|].
  apply fmap_sublist, sublist_filter.
Qed.

Lemma length_select (t : gmap Z Item) :
  length (order_by c (filter P (map_to_list t))) = length (filter P (map_to_list t)).
Proof. by rewrite order_by_perm. Qed.

End Select.

Lemma elem_of_rows_named (nm : string) (db : Db) (r : row) :
  r ∈ rows_named nm db <-> inventory db !! r.1 = Some r.2 /\ name r.2 = nm.
Proof.
  unfold rows_named. rewrite list_elem_of_filter. destruct r as [id it]. simpl.
  pose proof (elem_of_map_to_list (inventory db) id it). tauto.
Qed.

Lemma elem_of_select_for_consume `{Platform} (nm : string) (db : Db) (r : row) :
  r ∈ select_for_consume nm db <-> inventory db !! r.1 = Some r.2 /\ name r.2 = nm.
Proof. apply (elem_of_select by_exp_id (fun r : row => name r.2 = nm)). Qed.

Lemma NoDup_select_for_consume `{Platform} (nm : string) (db : Db) :
  NoDup (select_for_consume nm db).*1.
Proof. apply (NoDup_select by_exp_id (fun r : row => name r.2 = nm)). Qed.

Lemma select_for_consume_sorted `{Platform} (nm : string) (db : Db) :
  StronglySorted (le_of by_exp_id) (select_for_consume nm db).
Proof. apply order_by_sorted, by_exp_id_laws. Qed.

(** ** [consume] *)

Lemma sorted_lookup {A} (R : relation A) (l : list A) (i j : nat) (x y : A) :
  StronglySorted R l -> l !! i = Some x -> l !! j = Some y -> (i < j)%nat -> R x y.
Proof.
  intros Hs Hx Hy Hij. rewrite <- (take_drop j l) in Hs.
  apply (StronglySorted_app_1_elem_of R _ _ x y Hs).
  - apply list_elem_of_lookup. exists i. by rewrite lookup_take_lt.
  - apply list_elem_of_lookup. exists 0%nat. rewrite lookup_drop.
    by rewrite Nat.add_0_r.
Qed.

Section Consume.
Context `{Platform}.


(** The order of [consume]: the batches of the name are fetched by
    ascending (date(exp_at), id), which is what its ORDER BY says, and the
    batches it touches are a prefix of that list; when a batch is touched,
    every batch that comes strictly before it in that order has been
    deleted; the batches after the touched prefix are left exactly as they
    were. The listings order by (date(exp_at), date(in_at), id). *)
Lemma consume_visits_in_order (nm : string) (qty : Q) (tz : string) (w : World) :
  exists w' o,
    consume nm qty tz w = (w', Ok o) /\
    let rows := select_for_consume nm (current w) in
    StronglySorted (le_of by_exp_id) rows /\
    touched o = (take (length (details o)) rows).*1 /\
    (forall a b, a ∈ rows -> b ∈ rows -> by_exp_id a b = Lt -> b.1 ∈ touched o ->
       inventory (current w') !! a.1 = None) /\
    (forall r, r ∈ drop (length (details o)) rows ->
       inventory (current w') !! r.1 = Some r.2).
Proof.
  destruct (consume_walked nm qty tz w) as (ds & rem' & inv' & c' & Hrun & Hwalk).
  eexists _, _. split; [exact Hrun|]. simpl.
  set (rows := select_for_consume nm (current w)) in *.
  pose proof (select_for_consume_sorted nm (current w)) as Hsorted. fold rows in Hsorted.
  pose proof (NoDup_select_for_consume nm (current w)) as Hnd. fold rows in Hnd.
  pose proof (walked_prefix _ _ _ _ _ _ _ _ _ Hwalk) as Hpre.
  pose proof by_exp_id_laws as L.
  assert (Hrows : forall r, r ∈ rows -> inventory (current w) !! r.1 = Some r.2).
  { intros r Hr. by apply elem_of_select_for_consume in Hr as [? _]. }
  clearbody rows.
  split; [done|]. split; [done|]. unfold touched. simpl. split.
  - intros a b Ha Hb Hlt Htouched.
    apply list_elem_of_lookup in Ha as [i Hi].
    apply list_elem_of_lookup in Hb as [j Hj].
    assert (Hjk : (j < length ds)%nat).
    { rewrite Hpre in Htouched.
      apply list_elem_of_fmap in Htouched as (b' & Hb1 & Hb').
      apply elem_of_take in Hb' as (j' & Hj' & Hlt').
      assert (j = j') as ->; [|done].
      eapply (NoDup_lookup _ _ _ b.1 Hnd).
      - by rewrite list_lookup_fmap, Hj.
      - rewrite list_lookup_fmap, Hj'. simpl. by rewrite Hb1. }
    destruct (Nat.lt_trichotomy i j) as [Hij|[->|Hji]].
    + destruct (lookup_lt_is_Some_2 ds i) as [d Hd]; [lia|].
      destruct (walked_positions _ _ _ _ _ _ _ _ _ Hwalk i d Hd) as (r & Hr & Hid & Hcase).
      assert (r = a) as -> by congruence.
      destruct Hcase as [[Hdel _]|[_ Hlast]]; [|lia].
      rewrite <- Hid.
      apply (walked_deleted _ _ _ _ _ _ _ _ _ Hwalk Hnd d); [|done].
      apply list_elem_of_lookup. by exists i.
    + assert (a = b) as -> by congruence.
      rewrite (order_laws_refl by_exp_id b L) in Hlt. done.
    + pose proof (sorted_lookup _ _ _ _ _ _ Hsorted Hj Hi Hji) as Hle.
      unfold le_of in Hle. rewrite (law_antisym _ L a b), Hlt in Hle. done.
  - intros r Hr.
    assert (Hin : r ∈ rows).
    { eapply (subseteq_drop (length ds)), Hr. }
    rewrite (walked_frame _ _ _ _ _ _ _ _ _ Hwalk); [by apply Hrows|].
    rewrite Hpre. intros Hmem.
    rewrite <- (take_drop (length ds) rows), fmap_app in Hnd.
    apply NoDup_app in Hnd as (_ & Hdisj & _).
    apply (Hdisj r.1 Hmem). apply list_elem_of_fmap. by exists r.
Qed.


(** C10: a call of [consume] with a requested quantity of zero or less
    touches no batch: the inventory that the connection sees is unchanged,
    the clock is not read, and the outcome echoes the request with no
    detail entries and nothing unfulfilled. *)
Theorem consume_nonpositive (nm : string) (qty : Q) (tz : string) (w : World) :
  (qty <= 0)%Q ->
  exists w',
    consume nm qty tz w = (w', Ok (mkOutcome qty 0 [])) /\
    current w' = current w /\
    committed w' = current w /\
    clock w' = clock w.
Proof.
  intros Hqty.
  destruct (consume_walked nm qty tz w) as (ds & rem' & inv' & c' & Hrun & Hwalk).
  destruct (walked_idle _ _ _ _ _ _ _ _ _ Hwalk Hqty) as (-> & -> & -> & ->).
  eexists. split.
  - rewrite Hrun. unfold py_max.
    apply Qle_bool_true in Hqty. by rewrite Hqty.
  - simpl. by rewrite db_eta.
Qed.

End Consume.

(** ** The examples of [consume] *)

Section ConsumeExamples.
Import Examples.
Local Existing Instance Reference.platform.


(** C2: two batches of milk expire on the same day; batch 2 was stocked
    first and comes first in the listings, but [consume] takes from
    batch 1 and leaves batch 2 as it was. *)
Lemma consume_ignores_in_at :
  exists w' o a b,
    consume "milk" 1 tz same_expiry = (w', Ok o) /\
    inventory (current same_expiry) !! 2 = Some a /\
    inventory (current same_expiry) !! 1 = Some b /\
    exp_at a = exp_at b /\
    by_exp_in_id (2, a) (1, b) = Lt /\
    touched o = [1] /\
    inventory (current w') !! 2 = Some a.
Proof.
  eexists _, _, _, _. split; [vm_compute; reflexivity|].
  repeat split; vm_compute; reflexivity.
Qed.


(** In binary64 batches of 0.1 and 0.2 against a request of 0.5 leave 0.2
    unfulfilled, and 0.1 + 0.2 is not 0.5 - 0.2. *)
Example rounding_breaks_the_sum :
  consume_plan (A := binary64) [(1, 0.1%float); (2, 0.2%float)] 0.5%float
    = ([DeleteRow (A := binary64) 1; DeleteRow (A := binary64) 2],
       mkReport (A := binary64) 0.5%float 0.2%float
         [mkEntry (A := binary64) 1 0.1%float true;
          mkEntry (A := binary64) 2 0.2%float true]) /\
  PrimFloat.eqb (0.1 + 0.2)%float (0.5 - 0.2)%float = false.
Proof. split; vm_compute; reflexivity. Qed.


Lemma consume_nonpositive_witness :
  exists w',
    consume "milk" (-1) tz milk_and_eggs = (w', Ok (mkOutcome (-1) 0 [])) /\
    current w' = current milk_and_eggs /\
    committed w' = current milk_and_eggs /\
    clock w' = clock milk_and_eggs.
Proof. apply (consume_nonpositive "milk" (-1) tz milk_and_eggs). discriminate. Defined.

End ConsumeExamples.

(** ** The date normalizer *)

Section Parsing.
Context `{Platform}.

Lemma parse_stages (t tz : string) :
  try_except (of_option ValueError (strptime t))
    (try_except (iso_date t tz) (of_option ValueError (strptime (slice_to 10 t))))
  = three_stages t tz.
Proof.
  unfold three_stages, iso_date.
  destruct (strptime t); simpl; [done|].
  destruct (fromisoformat t) as [dt|]; simpl; [|done].
  destruct (tzinfo_is_None dt); simpl; [done|].
  by destruct (astimezone dt tz).
Qed.

(** C7 (as amended): both parsers strip the white space around the text
    and then apply the three stages in order: the exact date, else the ISO
    date-time brought to the target zone (attached when it has no offset,
    converted when it has one), else the first ten characters, whose
    failure is the failure of the parser. The parser of the tool layer
    answers today's date in the target zone for an absent text and for the
    empty text alike. *)
Theorem parse_precedence (s tz : string) (c : ascii) :
  _parse_text_to_date s tz = three_stages (strip s) tz /\
  _parse_to_date None tz = today tz /\
  _parse_to_date (Some EmptyString) tz = today tz /\
  _parse_to_date (Some (String c s)) tz = lift (three_stages (strip (String c s)) tz) /\
  (forall t, strptime t = None -> fromisoformat t = None ->
     strptime (slice_to 10 t) = None -> three_stages t tz = Raise ValueError).
Proof.
  split; [apply parse_stages|]. split; [done|]. split; [done|]. split.
  - unfold _parse_to_date. by rewrite parse_stages.
  - intros t H1 H2 H3. unfold three_stages. by rewrite H1, H2, H3.
Qed.

End Parsing.

Section ParsingExamples.
Import Examples.
Local Existing Instance Reference.platform.

Lemma empty_text_is_today :
  _parse_to_date (Some EmptyString) tz fresh_world
    = (mkWorld empty_db empty_db 1, Ok (mkdate 2024 1 1)) /\
  normalizer_spec (Some EmptyString) tz fresh_world = (fresh_world, Raise ValueError).
Proof. split; reflexivity. Qed.

Lemma padded_text_is_stripped :
  _parse_to_date (Some " 2024-01-02") tz fresh_world = (fresh_world, Ok (mkdate 2024 1 2)) /\
  _parse_text_to_date " 2024-01-02" tz = Ok (mkdate 2024 1 2) /\
  normalizer_spec (Some " 2024-01-02") tz fresh_world = (fresh_world, Raise ValueError).
Proof. repeat split; reflexivity. Qed.

End ParsingExamples.

(** ** The constraints are kept *)

Create HintDb ledger.

Lemma preserves_ret {A} (P : World -> Prop) (a : A) : preserves P (ret a).
Proof. by intros w. Qed.

Lemma preserves_raise {A} (P : World -> Prop) (e : exn) : preserves P (@raise A e).
Proof. by intros w. Qed.

Lemma preserves_lift {A} (P : World -> Prop) (r : result A) : preserves P (lift r).
Proof. by intros w. Qed.

Lemma preserves_fetchall {A} (P : World -> Prop) (q : Db -> A) : preserves P (fetchall q).
Proof. by intros w. Qed.

Lemma preserves_bind {A B} (P : World -> Prop) (m : M A) (k : A -> M B) :
  preserves P m -> (forall a, preserves P (k a)) -> preserves P (bind m k).
Proof.
  intros Hm Hk w Hw. unfold bind. specialize (Hm w Hw).
  destruct (m w) as [w' [a|e]]; simpl in *; [by apply Hk|done].
Qed.

Lemma consistent_tick : preserves consistent tick.
Proof. by intros w. Qed.

Lemma consistent_commit : preserves consistent commit.
Proof. intros w [Hc _]. by split. Qed.

Lemma consistent_execute {A} (stmt : Db -> result (Db * A)) :
  (forall db db' a, checks_hold db -> stmt db = Ok (db', a) -> checks_hold db') ->
  preserves consistent (execute stmt).
Proof.
  intros Hstmt w [Hc Hd]. unfold execute.
  destruct (stmt (current w)) as [[db a]|e] eqn:E; simpl; [|by split].
  split; [exact (Hstmt _ _ _ Hc E)|done].
Qed.

Lemma insert_item_checks (it : Item) (db db' : Db) (id : Z) :
  checks_hold db -> insert_item it db = Ok (db', id) -> checks_hold db'.
Proof.
  intros [Hi Hd]. unfold insert_item. destruct (check_item it) eqn:E; [|done].
  intros [= <- _]. split; [|done]. simpl. by apply map_Forall_insert_2.
Qed.

Lemma update_item_checks (id : Z) (f : Item -> Item) (db db' : Db) (n : Z) :
  checks_hold db -> update_item id f db = Ok (db', n) ->
  (forall it, quantity (f it) = quantity it) -> checks_hold db'.
Proof.
  intros [Hi Hd]. unfold update_item.
  destruct (inventory db !! id) as [r|] eqn:E; intros [= <- _] Hf; [|done].
  split; [|done]. simpl. apply map_Forall_insert_2; [|done].
  unfold check_item. rewrite Hf. exact (Hi _ _ E).
Qed.

Lemma delete_item_checks (id : Z) (db db' : Db) (u : Datatypes.unit) :
  checks_hold db -> delete_item id db = Ok (db', u) -> checks_hold db'.
Proof.
  intros [Hi Hd] [= <- _]. split; [|done]. simpl. by apply map_Forall_delete.
Qed.

Lemma upsert_default_checks (nm : string) (dys : Z) (ts : string) (db db' : Db)
    (u : Datatypes.unit) :
  checks_hold db -> upsert_default nm dys ts db = Ok (db', u) -> checks_hold db'.
Proof.
  intros [Hi Hd]. unfold upsert_default.
  destruct (sqlite_integer dys); [|done]. destruct (0 <? dys) eqn:E; [|done].
  intros [= <- _]. split; [done|]. simpl. apply map_Forall_insert_2; [|done].
  apply Z.ltb_lt in E. by destruct (shelf_life_defaults db !! nm).
Qed.

Lemma update_quantity_checks (id : Z) (q : Q) (ts : string) (db db' : Db) (n : Z) :
  checks_hold db -> update_quantity id q ts db = Ok (db', n) -> checks_hold db'.
Proof.
  intros [Hi Hd]. unfold update_quantity.
  destruct (inventory db !! id) as [r|] eqn:E; [|by intros [= <- _]].
  destruct (Qle_bool 0 q) eqn:Eq; [|done].
  intros [= <- _]. split; [|done]. simpl. by apply map_Forall_insert_2.
Qed.

#[export] Hint Resolve preserves_ret preserves_raise preserves_lift preserves_fetchall
  consistent_tick consistent_commit insert_item_checks update_item_checks
  delete_item_checks upsert_default_checks update_quantity_checks : ledger.

#[export] Hint Extern 1 (quantity _ = quantity _) => reflexivity : ledger.

Ltac keeps :=
  repeat first
    [ progress (intros; simpl)
    | solve [eauto with ledger]
    | apply preserves_bind
    | apply consistent_execute
    | match goal with
      | |- preserves _ (match ?x with _ => _ end) => destruct x
      | |- preserves _ (let (_, _) := ?x in _) => destruct x
      | |- preserves _ (if ?x then _ else _) => destruct x
      end ].

Section Kept.
Context `{Platform}.

Lemma consistent_now_text (tz : string) : preserves consistent (_now_text tz).
Proof. unfold _now_text. keeps. Qed.

Lemma consistent_today (tz : string) : preserves consistent (today tz).
Proof. unfold today. keeps. Qed.

Hint Resolve consistent_now_text consistent_today : ledger.

Lemma consistent_upsert_default_days (nm : string) (dys : Z) (tz : string) :
  preserves consistent (upsert_default_days nm dys tz).
Proof. unfold upsert_default_days. keeps. Qed.

Lemma consistent_add_item nm qty u i e src tz :
  preserves consistent (add_item nm qty u i e src tz).
Proof. unfold add_item. keeps. Qed.

Lemma consistent_recalc_loop rows new_days ts tz changed :
  preserves consistent (recalc_loop rows new_days ts tz changed).
Proof.
  revert changed. induction rows as [|r rows IH]; intros changed; simpl; keeps.
Qed.

Hint Resolve consistent_upsert_default_days consistent_add_item consistent_recalc_loop
  : ledger.

Lemma consistent_update_default_and_recalc_items nm new_days tz :
  preserves consistent (update_default_and_recalc_items nm new_days tz).
Proof. unfold update_default_and_recalc_items. keeps. Qed.

Lemma consistent_update_item_exp_by_id item_id d tz src :
  preserves consistent (update_item_exp_by_id item_id d tz src).
Proof. unfold update_item_exp_by_id. keeps. Qed.

Lemma consistent_consume_loop rows tz rem dets :
  preserves consistent (consume_loop rows tz rem dets).
Proof.
  revert rem dets. induction rows as [|r rows IH]; intros rem dets; simpl; keeps.
Qed.

Hint Resolve consistent_update_default_and_recalc_items consistent_update_item_exp_by_id
  consistent_consume_loop : ledger.

Lemma consistent_consume nm qty tz : preserves consistent (consume nm qty tz).
Proof. unfold consume. keeps. Qed.

Lemma consistent_parse_to_date s tz : preserves consistent (_parse_to_date s tz).
Proof. unfold _parse_to_date. keeps. Qed.

Hint Resolve consistent_consume consistent_parse_to_date : ledger.

Lemma consistent_update_targets targets p tz updated :
  preserves consistent (update_targets targets p tz updated).
Proof.
  revert updated. induction targets as [|r rows IH]; intros updated; simpl; keeps.
Qed.

Hint Resolve consistent_update_targets : ledger.

Lemma consistent_inventory_fn a p tz w :
  consistent w -> consistent (_inventory_fn a p tz w).1.
Proof.
  intros Hw. unfold _inventory_fn.
  assert (Hkeep : preserves consistent
            match a with
            | add => add_action p tz
            | consume_ => consume_action p tz
            | discard_ => discard_action p tz
            | set_shelf_life => set_shelf_life_action p tz
            | update_expiry => update_expiry_action p tz
            end).
  { destruct a; unfold add_action, consume_action, discard_action, discard,
      set_shelf_life_action, update_expiry_action, get_default_days, list_inventory,
      get_items_by_name; keeps. }
  specialize (Hkeep w Hw). by destruct (_ w) as [w' [r|e]].
Qed.

Lemma reachable_consistent (w : World) : reachable w -> consistent w.
Proof.
  induction 1 as [|a p tz w _ IH].
  - split; split; apply map_Forall_empty.
  - by apply consistent_inventory_fn.
Qed.

End Kept.

(** ** Quantities *)

Section Quantities.
Context `{Platform}.

(** C5 (as amended): in every state that calls of the tool reach from an
    empty database every batch has a quantity of zero or more, in what is
    committed and in what the connection sees; and after a [consume] or a
    [discard] from such a state every batch in the store is either exactly
    as it was before the call or holds more than 1e-9: a batch that the
    call brings to zero (or within 1e-9 of it) is deleted. A batch of
    quantity zero is in the store only as [add] put it there. *)
Theorem quantities_stay_nonnegative (w : World) :
  reachable w ->
  (forall id it, inventory (current w) !! id = Some it -> (0 <= quantity it)%Q) /\
  (forall id it, inventory (committed w) !! id = Some it -> (0 <= quantity it)%Q) /\
  (forall op nm qty tz, op = consume \/ op = discard ->
     exists w' o,
       op nm qty tz w = (w', Ok o) /\
       forall id it, inventory (current w') !! id = Some it ->
         inventory (current w) !! id = Some it \/ (eps < quantity it)%Q).
Proof.
  intros Hw. destruct (reachable_consistent w Hw) as [[Hcur _] [Hcom _]].
  split; [|split].
  - intros id it Hit. apply Qle_bool_true. exact (Hcur _ _ Hit).
  - intros id it Hit. apply Qle_bool_true. exact (Hcom _ _ Hit).
  - intros op nm qty tz Hop.
    assert (op = consume) as -> by (destruct Hop; subst; reflexivity).
    destruct (consume_walked nm qty tz w) as (ds & rem' & inv' & c' & Hrun & Hwalk).
    eexists _, _. split; [exact Hrun|]. simpl.
    apply (walked_changed _ _ _ _ _ _ _ _ _ Hwalk).
    + intros r Hr. by apply elem_of_select_for_consume in Hr as [? _].
    + apply NoDup_select_for_consume.
Qed.

End Quantities.

Section QuantityExamples.
Import Examples.
Local Existing Instance Reference.platform.

Lemma zero_batch_is_stored :
  reachable zero_milk /\
  exists it, inventory (current zero_milk) !! 1 = Some it /\
             inventory (committed zero_milk) !! 1 = Some it /\
             quantity it = 0%Q.
Proof.
  split; [apply reachable_call, reachable_fresh|].
  eexists. repeat split; vm_compute; reflexivity.
Qed.

Lemma quantities_stay_nonnegative_witness :
  (forall id it, inventory (current one_milk) !! id = Some it -> (0 <= quantity it)%Q) /\
  (forall id it, inventory (committed one_milk) !! id = Some it -> (0 <= quantity it)%Q) /\
  (forall op nm qty tz, op = consume \/ op = discard ->
     exists w' o,
       op nm qty tz one_milk = (w', Ok o) /\
       forall id it, inventory (current w') !! id = Some it ->
         inventory (current one_milk) !! id = Some it \/ (eps < quantity it)%Q).
Proof.
  apply (quantities_stay_nonnegative one_milk).
  apply reachable_call, reachable_fresh.
Defined.

End QuantityExamples.

(** ** Rejected additions *)

Section Rejections.
Context `{Platform}.

Lemma parse_to_date_dbs (s : option string) (tz : string) (w : World) :
  committed (_parse_to_date s tz w).1 = committed w /\
  current (_parse_to_date s tz w).1 = current w.
Proof. by destruct s as [[|c s]|]. Qed.




End Rejections.

Section RejectionExamples.
Import Examples.
Local Existing Instance Reference.platform.



End RejectionExamples.

(** ** The commits of a recalculation *)

Section Commits.
Context `{Platform}.

Lemma bind_eq {A B} (m : M A) (k : A -> M B) (w : World) :
  bind m k w = match m w with
               | (w', Ok a) => k a w'
               | (w', Raise e) => (w', Raise e)
               end.
Proof. reflexivity. Qed.

Lemma now_text_run (tz : string) (w : World) :
  _now_text tz w
    = (mkWorld (committed w) (current w) (S (clock w)), Ok (isoformat (now (clock w) tz))).
Proof. reflexivity. Qed.

Lemma upsert_default_days_run (nm : string) (dys : Z) (tz : string) (w : World) :
  upsert_default_days nm dys tz w =
    match upsert_default nm dys (isoformat (now (clock w) tz)) (current w) with
    | Ok (db, _) => (mkWorld db db (S (clock w)), Ok tt)
    | Raise e => (mkWorld (committed w) (current w) (S (clock w)), Raise e)
    end.
Proof.
  unfold upsert_default_days. rewrite bind_eq, now_text_run, bind_eq.
  unfold execute. simpl.
  by destruct (upsert_default nm dys _ (current w)) as [[db []]|e].
Qed.

End Commits.

(** ** Loops of updates by id *)

Lemma forallb_elem_of {A} (f : A -> bool) (l : list A) :
  forallb f l = true <-> forall x, x ∈ l -> f x = true.
Proof.
  rewrite forallb_forall. split; intros Hall x Hx; apply Hall; by apply list_elem_of_In.
Qed.

Lemma execute_update_item_run (id : Z) (f : Item -> Item) (w : World) (it : Item) :
  inventory (current w) !! id = Some it ->
  execute (update_item id f) w
    = (mkWorld (committed w)
         (with_inventory (<[id := f it]> (inventory (current w))) (current w)) (clock w),
       Ok 1).
Proof. intros Hit. unfold execute, update_item. by rewrite Hit. Qed.

Section Recalculation.
Context `{Platform}.

(** The loop on rows that are in the inventory: it updates the rows one
    after the other and stops at the first whose expiry cannot be
    recalculated; the rows updated by then stay updated. *)
Lemma recalc_loop_run (rows : list row) (new_days : Z) (ts tz : string) :
  forall (changed : Z) (w : World),
  NoDup rows.*1 ->
  (forall r, r ∈ rows -> inventory (current w) !! r.1 = Some r.2) ->
  exists (k : nat) inv' res,
    recalc_loop rows new_days ts tz changed w
      = (mkWorld (committed w) (with_inventory inv' (current w)) (clock w), res) /\
    (forall id, id ∉ (take k rows).*1 -> inv' !! id = inventory (current w) !! id) /\
    (forall r, r ∈ take k rows ->
       exists it', inv' !! r.1 = Some it' /\ recalculated_to new_days tz ts r.2 it') /\
    match res with
    | Ok n => k = length rows /\ n = changed + Z.of_nat (length rows)
    | Raise _ => exists r, rows !! k = Some r /\ recalculated new_days tz r.2 = None
    end.
Proof.
  induction rows as [|r rows IH]; intros changed w Hnd Hrows.
  - exists 0%nat, (inventory (current w)), (Ok changed). simpl.
    rewrite db_eta, world_eta. split; [done|]. split; [done|]. split.
    + intros r Hr. by apply elem_of_nil in Hr.
    + split; [done|lia].
  - rewrite fmap_cons in Hnd. apply NoDup_cons in Hnd as [Hfresh Hnd].
    simpl. rewrite bind_eq. unfold lift.
    destruct (_parse_text_to_date (in_at r.2) tz) as [d|e] eqn:Hp; cycle 1.
    { exists 0%nat, (inventory (current w)), (Raise e). simpl.
      rewrite db_eta, world_eta. split; [done|]. split; [done|]. split.
      - intros r' Hr'. by apply elem_of_nil in Hr'.
      - exists r. split; [done|]. unfold recalculated. by rewrite Hp. }
    rewrite bind_eq.
    destruct (add_days d new_days) as [e'|] eqn:Ha; cycle 1.
    { exists 0%nat, (inventory (current w)), (Raise OverflowError). simpl.
      rewrite db_eta, world_eta. split; [done|]. split; [done|]. split.
      - intros r' Hr'. by apply elem_of_nil in Hr'.
      - exists r. split; [done|]. unfold recalculated. by rewrite Hp, Ha. }
    simpl of_option. cbv iota beta.
    rewrite bind_eq, (execute_update_item_run _ _ w r.2) by (apply Hrows; left).
    match goal with
    | |- context [recalc_loop _ _ _ _ _ ?w0] => set (w1 := w0)
    end.
    destruct (IH (changed + 1) w1 Hnd) as (k & inv' & res & Hrun & Hframe & Hrw & Hres).
    { intros r' Hr'. simpl. rewrite lookup_insert_ne; [apply Hrows; by right|].
      intros Heq. apply Hfresh. rewrite Heq. apply list_elem_of_fmap. by exists r'. }
    exists (S k), inv', res. split; [by rewrite Hrun|]. split; [|split].
    + intros id Hid. simpl in Hid. apply not_elem_of_cons in Hid as [Hne Hid].
      rewrite (Hframe id Hid). simpl. by rewrite lookup_insert_ne.
    + intros r' Hr'. simpl in Hr'. apply elem_of_cons in Hr' as [->|Hr']; [|by apply Hrw].
      exists (set_exp (_to_date_str e') ts r.2). split.
      * rewrite Hframe; [simpl; by rewrite lookup_insert_eq|].
        intros Hmem. apply Hfresh.
        apply list_elem_of_fmap in Hmem as (x & -> & Hx).
        apply list_elem_of_fmap. exists x. split; [done|].
        by apply (subseteq_take k rows).
      * unfold recalculated_to. simpl. repeat (split; [done|]).
        exists d, e'. split; [|done].
        rewrite <- Hp. unfold _parse_text_to_date. by rewrite parse_stages.
    + destruct res as [n|e].
      * destruct Hres as [-> ->]. split; [done|]. simpl length. lia.
      * destruct Hres as (r0 & Hr0 & Hnone). by exists r0.
Qed.

Lemma elem_of_select_default_rows (nm : string) (db : Db) (r : row) :
  r ∈ select_default_rows nm db <->
  inventory db !! r.1 = Some r.2 /\ name r.2 = nm /\ exp_source r.2 = src_default.
Proof.
  apply (elem_of_select by_id
           (fun r : row => name r.2 = nm /\ exp_source r.2 = src_default)).
Qed.

Lemma NoDup_select_default_rows (nm : string) (db : Db) :
  NoDup (select_default_rows nm db).*1.
Proof.
  apply (NoDup_select by_id
           (fun r : row => name r.2 = nm /\ exp_source r.2 = src_default)).
Qed.

(** A recalculation from the upsert on, when the upsert goes through. *)
Lemma recalculation_run (nm : string) (new_days : Z) (tz : string) (w : World) :
  0 < new_days < 2 ^ 63 ->
  let ts0 := isoformat (now (clock w) tz) in
  let ts := isoformat (now (S (clock w)) tz) in
  let rows := select_default_rows nm (current w) in
  exists db (k : nat) inv' res,
    upsert_default nm new_days ts0 (current w) = Ok (db, tt) /\
    inventory db = inventory (current w) /\
    select_default_days nm db = Some new_days /\
    (forall nm', nm' <> nm ->
       shelf_life_defaults db !! nm' = shelf_life_defaults (current w) !! nm') /\
    update_default_and_recalc_items nm new_days tz w
      = (match res with
         | Ok n => let db' := with_inventory inv' db in
                   (mkWorld db' db' (S (S (clock w))), Ok n)
         | Raise e => (mkWorld db (with_inventory inv' db) (S (S (clock w))), Raise e)
         end) /\
    (forall id, id ∉ (take k rows).*1 -> inv' !! id = inventory (current w) !! id) /\
    (forall r, r ∈ take k rows ->
       exists it', inv' !! r.1 = Some it' /\ recalculated_to new_days tz ts r.2 it') /\
    match res with
    | Ok n => k = length rows /\ n = Z.of_nat (length rows)
    | Raise _ => exists r, rows !! k = Some r /\ recalculated new_days tz r.2 = None
    end.
Proof.
  intros Hdays ts0 ts rows.
  assert (Hint : sqlite_integer new_days = true).
  { unfold sqlite_integer. apply andb_true_iff. split; [apply Z.leb_le|apply Z.ltb_lt]; lia. }
  assert (Hpos : (0 <? new_days) = true) by (apply Z.ltb_lt; lia).
  unfold update_default_and_recalc_items.
  rewrite bind_eq, upsert_default_days_run. unfold upsert_default.
  rewrite Hint, Hpos. fold ts0.
  set (db := with_defaults _ (current w)).
  rewrite bind_eq. unfold fetchall. rewrite bind_eq, now_text_run, bind_eq.
  cbn [committed current clock]. fold ts.
  assert (Hsame : select_default_rows nm db = rows) by done.
  rewrite Hsame.
  destruct (recalc_loop_run rows new_days ts tz 0 (mkWorld db db (S (S (clock w)))))
    as (k & inv' & res & Hrun & Hframe & Hrw & Hres).
  { apply NoDup_select_default_rows. }
  { intros r Hr. by apply elem_of_select_default_rows in Hr as [? _]. }
  exists db, k, inv', res. split; [done|]. split; [done|]. split.
  { unfold select_default_days, db. simpl. rewrite lookup_insert_eq.
    by destruct (shelf_life_defaults (current w) !! nm). }
  split.
  { intros nm' Hne. unfold db. simpl. by rewrite lookup_insert_ne. }
  split.
  { rewrite Hrun. cbn [committed current clock].
    destruct res as [n|e]; [|done].
    rewrite bind_eq. unfold commit, ret. by cbn [committed current clock]. }
  split; [exact Hframe|]. split; [exact Hrw|].
  destruct res as [n|e]; [|done]. destruct Hres as [-> ->]. split; [done|lia].
Qed.

(** C4 (as amended): a recalculation with new_days above zero and below
    2^63, on a ledger whose batches of the name with a default expiry all
    have a stock-in date that parses and an expiry new_days later that is
    still a date, returns the number of those batches; each of them gets
    the text of its stock-in date plus new_days as exp_at and the time of
    the call as updated_at, and keeps its other columns; every other batch
    (another name, or an expiry given by the user) is exactly as it was, no
    batch appears or disappears, the default of the name is new_days, and
    all of it is committed. *)
Theorem set_shelf_life_recalculates (nm : string) (new_days : Z) (tz : string)
    (w : World) :
  0 < new_days < 2 ^ 63 ->
  recalc_ready nm new_days tz (current w) = true ->
  exists w',
    update_default_and_recalc_items nm new_days tz w
      = (w', Ok (Z.of_nat (length (select_default_rows nm (current w))))) /\
    committed w' = current w' /\
    select_default_days nm (current w') = Some new_days /\
    NoDup (select_default_rows nm (current w)).*1 /\
    (forall r, r ∈ select_default_rows nm (current w) <->
       inventory (current w) !! r.1 = Some r.2 /\
       name r.2 = nm /\ exp_source r.2 = src_default) /\
    (forall id, inventory (current w) !! id = None ->
       inventory (current w') !! id = None) /\
    (forall id it, inventory (current w) !! id = Some it ->
       if decide (name it = nm /\ exp_source it = src_default)
       then exists it',
              inventory (current w') !! id = Some it' /\
              recalculated_to new_days tz (isoformat (now (S (clock w)) tz)) it it'
       else inventory (current w') !! id = Some it).
Proof.
  intros Hdays Hready.
  unfold recalc_ready in Hready. rewrite forallb_elem_of in Hready.
  destruct (recalculation_run nm new_days tz w Hdays)
    as (db & k & inv' & res & _ & Hinv & Hdef & _ & Hrun & Hframe & Hrw & Hres).
  set (rows := select_default_rows nm (current w)) in *.
  destruct res as [n|e]; cycle 1.
  { destruct Hres as (r & Hr & Hnone).
    assert (Hin : r ∈ rows) by (apply list_elem_of_lookup; by exists k).
    specialize (Hready r Hin). apply bool_decide_eq_true in Hready.
    rewrite Hnone in Hready. by destruct Hready. }
  destruct Hres as [-> ->]. rewrite firstn_all in Hframe, Hrw.
  rewrite Hrun. eexists. split; [reflexivity|]. cbn [committed current clock].
  split; [done|]. split; [done|].
  split; [apply NoDup_select_default_rows|].
  split; [apply elem_of_select_default_rows|]. split.
  - intros id Hid. simpl. rewrite Hframe; [done|].
    intros Hmem. apply list_elem_of_fmap in Hmem as (r & -> & Hr).
    apply elem_of_select_default_rows in Hr as [Hr _]. congruence.
  - intros id it Hit. simpl. case_decide as Hsel.
    + apply (Hrw (id, it)). apply elem_of_select_default_rows. tauto.
    + rewrite Hframe; [done|].
      intros Hmem. apply list_elem_of_fmap in Hmem as (r & -> & Hr).
      apply elem_of_select_default_rows in Hr as (Hr & ? & ?).
      apply Hsel. assert (it = r.2) as -> by congruence. done.
Qed.

(** C9 (as amended): a recalculation commits twice. With new_days of zero
    or less, or outside the signed 64-bit range, the upsert raises
    (IntegrityError from the CHECK constraint, OverflowError from the
    binding) and both databases are as they were. Otherwise the upsert of
    the default is committed on its own, before any batch is read; the
    batch updates are committed together when the loop has gone through.
    When a batch cannot be recalculated the call raises at that batch with
    the new default committed and no batch update committed: what is
    committed holds the batches as the connection saw them before the call,
    and the connection still sees, uncommitted, the updates of the batches
    that came before the failing one. *)
Theorem recalc_commit_points (nm : string) (new_days : Z) (tz : string) (w : World) :
  exists w' r,
    update_default_and_recalc_items nm new_days tz w = (w', r) /\
    if (0 <? new_days) && (new_days <? 2 ^ 63) then
      select_default_days nm (committed w') = Some new_days /\
      (forall nm', nm' <> nm ->
         shelf_life_defaults (committed w') !! nm'
           = shelf_life_defaults (current w) !! nm') /\
      shelf_life_defaults (current w') = shelf_life_defaults (committed w') /\
      match r with
      | Ok _ => committed w' = current w'
      | Raise _ =>
          inventory (committed w') = inventory (current w) /\
          exists updated failing rest,
            select_default_rows nm (current w) = (updated ++ failing :: rest)%list /\
            recalculated new_days tz failing.2 = None /\
            (forall id, inventory (current w) !! id = None ->
               inventory (current w') !! id = None) /\
            (forall id it, inventory (current w) !! id = Some it ->
               if decide (id ∈ updated.*1)
               then exists it',
                      inventory (current w') !! id = Some it' /\
                      recalculated_to new_days tz (isoformat (now (S (clock w)) tz)) it it'
               else inventory (current w') !! id = Some it)
      end
    else
      r = Raise (if (- 2 ^ 63 <=? new_days) && (new_days <=? 0)
                 then IntegrityError else OverflowError) /\
      current w' = current w /\ committed w' = committed w.
Proof.
  destruct (Z.ltb_spec 0 new_days) as [Hpos|Hneg];
    [destruct (Z.ltb_spec new_days (2 ^ 63)) as [Hsmall|Hbig]|]; simpl andb; cbv iota.
  - destruct (recalculation_run nm new_days tz w (conj Hpos Hsmall))
      as (db & k & inv' & res & _ & Hinv & Hdef & Hothers & Hrun & Hframe & Hrw & Hres).
    set (rows := select_default_rows nm (current w)) in *.
    rewrite Hrun. destruct res as [n|e].
    + eexists _, _. split; [reflexivity|]. by cbn [committed current clock].
    + eexists _, _. split; [reflexivity|]. cbn [committed current clock].
      split; [done|]. split; [done|]. split; [done|]. split; [done|].
      destruct Hres as (r & Hr & Hnone).
      exists (take k rows), r, (drop (S k) rows).
      split; [by rewrite <- (take_drop_middle rows k r Hr) at 1|].
      split; [done|].
      assert (Hmem : forall x, x ∈ rows -> inventory (current w) !! x.1 = Some x.2).
      { intros x Hx. by apply elem_of_select_default_rows in Hx as [? _]. }
      split.
      * intros id Hid. simpl. rewrite Hframe; [done|].
        intros Hin. apply list_elem_of_fmap in Hin as (x & -> & Hx).
        apply subseteq_take in Hx. apply Hmem in Hx. congruence.
      * intros id it Hit. simpl. case_decide as Hin.
        -- apply list_elem_of_fmap in Hin as (x & -> & Hx).
           destruct (Hrw x Hx) as (it' & Hlook & Hrec).
           apply subseteq_take in Hx. apply Hmem in Hx.
           assert (it = x.2) as -> by congruence. by exists it'.
        -- by rewrite Hframe.
  - assert (Hint : sqlite_integer new_days = false).
    { unfold sqlite_integer. apply andb_false_iff. right. by apply Z.ltb_ge. }
    assert ((new_days <=? 0) = false) as -> by (apply Z.leb_gt; lia).
    rewrite andb_false_r.
    unfold update_default_and_recalc_items.
    rewrite bind_eq, upsert_default_days_run. unfold upsert_default. rewrite Hint.
    eexists _, _. split; [reflexivity|]. done.
  - assert ((new_days <=? 0) = true) as -> by (apply Z.leb_le; lia).
    rewrite andb_true_r.
    unfold update_default_and_recalc_items.
    rewrite bind_eq, upsert_default_days_run. unfold upsert_default, sqlite_integer.
    assert ((new_days <? 2 ^ 63) = true) as -> by (apply Z.ltb_lt; lia).
    rewrite andb_true_r.
    assert ((0 <? new_days) = false) as -> by (by apply Z.ltb_ge).
    destruct (- 2 ^ 63 <=? new_days); eexists _, _; (split; [reflexivity|]); done.
Qed.

End Recalculation.

Section RecalculationExamples.
Import Examples.
Local Existing Instance Reference.platform.

(** C4: a shelf life of zero days is refused by CHECK(days > 0): the call
    answers an error instead of a count, and the batch of milk with a
    default expiry, stocked on 2024-01-02, keeps its exp_at of 2024-01-09
    and its updated_at. *)
Lemma zero_days_are_refused :
  exists w' it,
    _inventory_fn set_shelf_life (shelf_life "milk" 0) tz default_milk
      = (w', Error (uncaught IntegrityError)) /\
    inventory (current default_milk) !! 1 = Some it /\
    name it = "milk" /\ exp_source it = src_default /\
    in_at it = "2024-01-02" /\ exp_at it = "2024-01-09" /\
    inventory (current w') !! 1 = Some it.
Proof. eexists _, _. repeat split; vm_compute; reflexivity. Qed.

Lemma set_shelf_life_recalculates_witness :
  exists w' it',
    update_default_and_recalc_items "milk" 10 tz default_milk = (w', Ok 1) /\
    committed w' = current w' /\
    select_default_days "milk" (current w') = Some 10 /\
    inventory (current w') !! 1 = Some it' /\
    name it' = "milk" /\ in_at it' = "2024-01-02" /\ exp_at it' = "2024-01-12" /\
    exp_source it' = src_default /\
    updated_at it' = isoformat (now (S (clock default_milk)) tz).
Proof.
  destruct (set_shelf_life_recalculates "milk" 10 tz default_milk)
    as (w' & Hrun & Hcommitted & Hdefault & _ & _ & _ & Hbatches).
  - split; reflexivity.
  - vm_compute. reflexivity.
  - destruct (Hbatches 1 _ eq_refl)
      as (it' & Hlook & Hname & _ & _ & Hin & Hsrc & _ & Hts & d & e & Hd & He & Hexp).
    exists w', it'. split; [exact Hrun|]. split; [exact Hcommitted|].
    split; [exact Hdefault|]. split; [exact Hlook|].
    split; [exact Hname|]. split; [exact Hin|]. split; [|by split].
    vm_compute in Hd. injection Hd as <-.
    vm_compute in He. injection He as <-. exact Hexp.
Defined.

Lemma recalculation_scenario :
  exists w',
    update_default_and_recalc_items "milk" 10 tz default_milk = (w', Ok 1) /\
    exp_at <$> inventory (current default_milk) !! 1 = Some "2024-01-09" /\
    exp_at <$> inventory (committed w') !! 1 = Some "2024-01-12".
Proof. eexists. repeat split; vm_compute; reflexivity. Qed.

(** C9: with one batch of milk stocked in 2024 and a shelf life of
    3000000 days the date addition overflows and the call raises; the
    committed default has gone from 7 to 3000000. *)
Lemma failed_recalc_changes_default :
  exists w',
    update_default_and_recalc_items "milk" 3000000 tz default_milk
      = (w', Raise OverflowError) /\
    days <$> shelf_life_defaults (committed default_milk) !! "milk" = Some 7 /\
    days <$> shelf_life_defaults (committed w') !! "milk" = Some 3000000 /\
    _inventory_fn set_shelf_life (shelf_life "milk" 3000000) tz default_milk
      = (w', Error (uncaught OverflowError)).
Proof. eexists. repeat split; vm_compute; reflexivity. Qed.

(** Two batches, the second stocked in December 9999: a shelf life of 40
    days is written on the first batch and overflows on the second; the
    connection sees the new expiry of the first batch, what is committed
    does not, and the default of 40 days is committed. *)
Example failed_recalc_leaves_updates_pending :
  exists w',
    update_default_and_recalc_items "milk" 40 tz two_defaults
      = (w', Raise OverflowError) /\
    exp_at <$> inventory (current two_defaults) !! 1 = Some "2024-01-09" /\
    exp_at <$> inventory (current w') !! 1 = Some "2024-02-11" /\
    exp_at <$> inventory (committed w') !! 1 = Some "2024-01-09" /\
    days <$> shelf_life_defaults (committed w') !! "milk" = Some 40.
Proof. eexists. repeat split; vm_compute; reflexivity. Qed.

(** A shelf life of 2^63 days cannot be bound to the statement: the call
    raises OverflowError and nothing is written. *)
Example unbindable_days_are_refused :
  _inventory_fn set_shelf_life (shelf_life "milk" (2 ^ 63)) tz default_milk
    = (mkWorld (committed default_milk) (current default_milk)
         (S (clock default_milk)),
       Error (uncaught OverflowError)).
Proof. vm_compute. reflexivity. Qed.

End RecalculationExamples.

(** ** The texts of dates *)

Lemma digit_char_cases (P : ascii -> Prop) (n : Z) :
  P "0"%char -> P "1"%char -> P "2"%char -> P "3"%char -> P "4"%char ->
  P "5"%char -> P "6"%char -> P "7"%char -> P "8"%char -> P "9"%char ->
  P (digit_char n).
Proof.
  intros. unfold digit_char.
  assert (Hk : 0 <= n mod 10 < 10) by (apply Z.mod_pos_bound; lia).
  set (k := n mod 10) in *. clearbody k.
  assert (k = 0 \/ k = 1 \/ k = 2 \/ k = 3 \/ k = 4 \/ k = 5 \/ k = 6 \/ k = 7 \/
          k = 8 \/ k = 9) as Hcases by lia.
  repeat destruct Hcases as [->|Hcases]; try assumption. by subst.
Qed.

Lemma digit_digit_char (n : Z) : digit (digit_char n) = Some (n mod 10).
Proof.
  unfold digit_char.
  assert (Hk : 0 <= n mod 10 < 10) by (apply Z.mod_pos_bound; lia).
  set (k := n mod 10) in *. clearbody k.
  assert (k = 0 \/ k = 1 \/ k = 2 \/ k = 3 \/ k = 4 \/ k = 5 \/ k = 6 \/ k = 7 \/
          k = 8 \/ k = 9) as Hcases by lia.
  repeat destruct Hcases as [->|Hcases]; try reflexivity. by subst.
Qed.

Lemma digit_char_not_space (n : Z) : isspace (digit_char n) = false.
Proof. apply (digit_char_cases (fun c => isspace c = false)); reflexivity. Qed.

Lemma digit_char_not_T (n : Z) : Ascii.eqb (digit_char n) "T" = false.
Proof. apply (digit_char_cases (fun c => Ascii.eqb c "T" = false)); reflexivity. Qed.

Lemma rstrip_cons (c : ascii) (s : string) :
  isspace c = false -> rstrip (String c s) = String c (rstrip s).
Proof. intros Hc. simpl. destruct (rstrip s); [by rewrite Hc|done]. Qed.

Lemma lstrip_cons (c : ascii) (s : string) :
  isspace c = false -> lstrip (String c s) = String c s.
Proof. intros Hc. simpl. by rewrite Hc. Qed.

(** From the year 1000 on the year is written with four digits. *)
Lemma to_date_str_four (d : date) :
  1000 <= year d ->
  _to_date_str d
    = pad4 (year d) (String "-" (pad2 (month d) (String "-" (pad2 (day d) EmptyString)))).
Proof.
  intros Hy. unfold _to_date_str, year_text.
  destruct (Z.ltb_spec (year d) 10); [lia|].
  destruct (Z.ltb_spec (year d) 100); [lia|].
  by destruct (Z.ltb_spec (year d) 1000); [lia|].
Qed.

Lemma strip_to_date_str (d : date) : strip (_to_date_str d) = _to_date_str d.
Proof.
  unfold strip, _to_date_str, year_text, pad4, pad2.
  destruct (year d <? 10), (year d <? 100), (year d <? 1000);
    rewrite lstrip_cons by apply digit_char_not_space;
    repeat (rewrite rstrip_cons by (apply digit_char_not_space || reflexivity));
    reflexivity.
Qed.

(** The text has ten characters exactly from the year 1000 on. *)
Lemma to_date_str_length (d : date) :
  String.length (_to_date_str d) = 10%nat <-> 1000 <= year d.
Proof.
  unfold _to_date_str, year_text, pad4, pad2.
  destruct (Z.ltb_spec (year d) 10); [simpl; split; intros ?; (discriminate || lia)|].
  destruct (Z.ltb_spec (year d) 100); [simpl; split; intros ?; (discriminate || lia)|].
  destruct (Z.ltb_spec (year d) 1000); simpl; split; intros ?;
    (discriminate || lia || reflexivity).
Qed.

Lemma to_date_str_no_T (d : date) : contains "T" (_to_date_str d) = false.
Proof.
  unfold _to_date_str, year_text, pad4, pad2.
  destruct (year d <? 10), (year d <? 100), (year d <? 1000); simpl;
    by rewrite !digit_char_not_T.
Qed.


Lemma re_Y_pad4 (y : Z) (k : string) :
  0 <= y <= 9999 -> re_Y (pad4 y k) = Some (y, k).
Proof.
  intros Hy. unfold re_Y, pad4, pad2. rewrite !digit_digit_char.
  f_equal. f_equal. Z.div_mod_to_equations. lia.
Qed.

Lemma month_matches {A} (k : Z -> string -> option A) (m : Z) (rest : string) (a : A) :
  1 <= m <= 12 -> k m rest = Some a ->
  first_match m_alts k (pad2 m rest) = Some a.
Proof.
  intros Hm Hk.
  assert (m = 1 \/ m = 2 \/ m = 3 \/ m = 4 \/ m = 5 \/ m = 6 \/ m = 7 \/ m = 8 \/
          m = 9 \/ m = 10 \/ m = 11 \/ m = 12) as Hcases by lia.
  repeat destruct Hcases as [->|Hcases]; try subst m; lazy; by rewrite Hk.
Qed.

Lemma day_matches {A} (k : Z -> string -> option A) (d : Z) (rest : string) (a : A) :
  1 <= d <= 31 -> k d rest = Some a ->
  first_match d_alts k (pad2 d rest) = Some a.
Proof.
  intros Hd Hk.
  assert (d = 1 \/ d = 2 \/ d = 3 \/ d = 4 \/ d = 5 \/ d = 6 \/ d = 7 \/ d = 8 \/
          d = 9 \/ d = 10 \/ d = 11 \/ d = 12 \/ d = 13 \/ d = 14 \/ d = 15 \/
          d = 16 \/ d = 17 \/ d = 18 \/ d = 19 \/ d = 20 \/ d = 21 \/ d = 22 \/
          d = 23 \/ d = 24 \/ d = 25 \/ d = 26 \/ d = 27 \/ d = 28 \/ d = 29 \/
          d = 30 \/ d = 31) as Hcases by lia.
  repeat destruct Hcases as [->|Hcases]; try subst d; lazy; by rewrite Hk.
Qed.

Lemma days_in_month_le (y m : Z) : _days_in_month y m <= 31.
Proof.
  unfold _days_in_month, _DAYS_IN_MONTH.
  destruct ((m =? 2) && _is_leap y); [lia|].
  destruct m as [|p|p]; try lia.
  do 4 (destruct p as [p|p|]; try lia).
Qed.

Lemma make_date_Some (y m d : Z) (dt : date) :
  make_date y m d = Some dt ->
  dt = mkdate y m d /\ 1 <= y <= 9999 /\ 1 <= m <= 12 /\ 1 <= d <= 31.
Proof.
  unfold make_date, MINYEAR, MAXYEAR.
  destruct (_ && _) eqn:E; [|done]. intros [= <-].
  repeat (apply andb_prop in E as [E ?]).
  pose proof (days_in_month_le y m). split; [done|]. lia.
Qed.

(** The text of a date of the year 1000 or later is read back as the
    date. *)
Lemma strptime_to_date_str (y m d : Z) (dt : date) :
  1000 <= y -> make_date y m d = Some dt -> strptime (_to_date_str dt) = Some dt.
Proof.
  intros Hy1000 Hdt. destruct (make_date_Some y m d dt Hdt) as (-> & Hy & Hm & Hd).
  rewrite to_date_str_four by done.
  unfold strptime, re_match. simpl year. simpl month. simpl day.
  rewrite re_Y_pad4 by lia. unfold dash_then at 1. simpl Ascii.eqb. cbv iota.
  rewrite (month_matches _ m _ (y, m, d, EmptyString)); [done|lia|].
  unfold dash_then. simpl Ascii.eqb. cbv iota.
  by apply day_matches.
Qed.


(** ** The migration pass *)

Section Migration.
Context `{Platform}.

Lemma elem_of_select_legacy_rows (db : Db) (r : row) :
  r ∈ select_legacy_rows db <-> inventory db !! r.1 = Some r.2 /\ legacy_row r = true.
Proof. apply (elem_of_select by_id (fun r : row => legacy_row r = true)). Qed.







End Migration.

Section MigrationExamples.
Import Examples.
Local Existing Instance Reference.platform.



Lemma migration_scenario :
  exists w1,
    _normalize_existing_rows_to_date_only tz legacy = (w1, Ok tt) /\
    select_legacy_rows (current legacy) <> [] /\
    in_at <$> inventory (committed w1) !! 1 = Some "2024-01-02" /\
    exp_at <$> inventory (committed w1) !! 1 = Some "2024-01-09".
Proof.
  eexists. split; [vm_compute; reflexivity|].
  split; [vm_compute; discriminate|]. split; vm_compute; reflexivity.
Qed.

End MigrationExamples.

(** * More properties of the code *)

(** ** [consume]: what it leaves of the batches *)

Section Remains.
Context `{Platform}.

Lemma walked_kept tz rows rem inv c ds rem' inv' c' :
  walked tz rows rem inv c ds rem' inv' c' ->
  (forall r, r ∈ rows -> inv !! r.1 = Some r.2) ->
  NoDup rows.*1 ->
  forall j it', inv' !! j = Some it' ->
    exists it, inv !! j = Some it /\
      (it' = it \/ exists q ts, it' = set_quantity q ts it /\ (q < quantity it)%Q).
Proof.
  induction 1 as [rem inv c|r rest rem inv c Hrem
                 |r rest rem inv c ds rem' inv' c' Hpos Hfit Hwalk IH
                 |r rest rem inv c Hpos Hbig]; intros Hrows Hnd j it' Hj.
  - exists it'. auto.
  - exists it'. auto.
  - rewrite fmap_cons in Hnd. apply NoDup_cons in Hnd as [Hfresh Hnd].
    destruct (IH) with (j := j) (it' := it') as (it & Hit & Hcase); try done.
    { intros r' Hr'. rewrite lookup_delete_ne; [apply Hrows; by right|].
      intros Heq. apply Hfresh. rewrite Heq. apply list_elem_of_fmap. by exists r'. }
    exists it. split; [|done].
    destruct (decide (r.1 = j)) as [<-|Hne].
    + by rewrite lookup_delete_eq in Hit.
    + by rewrite lookup_delete_ne in Hit.
  - rewrite lookup_alter in Hj. case_decide as Heq.
    + subst j. rewrite (Hrows r) in Hj by left. rewrite (Hrows r) by left.
      exists r.2. split; [done|]. right. injection Hj as <-.
      eexists _, _. split; [done|]. lra.
    + exists it'. auto.
Qed.

(** The batch of an entry that is not a deletion is still there, with a
    new quantity and a new updated_at. *)
Lemma walked_partial tz rows rem inv c ds rem' inv' c' :
  walked tz rows rem inv c ds rem' inv' c' ->
  (forall r, r ∈ rows -> inv !! r.1 = Some r.2) ->
  NoDup rows.*1 ->
  forall d, d ∈ ds -> deleted d = false ->
    exists r q ts, r ∈ rows /\ row_id d = r.1 /\
      inv' !! r.1 = Some (set_quantity q ts r.2).
Proof.
  induction 1 as [rem inv c|r rest rem inv c Hrem
                 |r rest rem inv c ds rem' inv' c' Hpos Hfit Hwalk IH
                 |r rest rem inv c Hpos Hbig]; intros Hrows Hnd d Hd Hdel.
  - by apply elem_of_nil in Hd.
  - by apply elem_of_nil in Hd.
  - rewrite fmap_cons in Hnd. apply NoDup_cons in Hnd as [Hfresh Hnd].
    apply elem_of_cons in Hd as [->|Hd]; [done|].
    destruct (IH) with (d := d) as (r' & q & ts & Hr' & Hid & Hlook); try done.
    + intros r' Hr'. rewrite lookup_delete_ne; [apply Hrows; by right|].
      intros Heq. apply Hfresh. rewrite Heq. apply list_elem_of_fmap. by exists r'.
    + exists r', q, ts. split; [by right|done].
  - apply list_elem_of_singleton in Hd as ->. simpl.
    exists r, (quantity r.2 - rem)%Q, (isoformat (now c tz)).
    split; [left|]. split; [done|].
    rewrite lookup_alter, decide_True by done.
    by rewrite (Hrows r) by left.
Qed.

End Remains.

Section ConsumeMore.
Context `{Platform}.

(** X2: [consume] never adds a batch and never touches a batch of another
    name or the table of defaults; of a batch of the name that is still
    there after the call only the quantity, which has not grown, and
    updated_at can have changed. *)
Theorem consume_changes_quantities_only (nm : string) (qty : Q) (tz : string)
    (w : World) :
  exists w' o,
    consume nm qty tz w = (w', Ok o) /\
    shelf_life_defaults (current w') = shelf_life_defaults (current w) /\
    (forall id it, inventory (current w) !! id = Some it -> name it <> nm ->
       inventory (current w') !! id = Some it) /\
    (forall id it', inventory (current w') !! id = Some it' ->
       exists it,
         inventory (current w) !! id = Some it /\
         name it' = name it /\ unit it' = unit it /\
         in_at it' = in_at it /\ exp_at it' = exp_at it /\
         exp_source it' = exp_source it /\ created_at it' = created_at it /\
         (quantity it' <= quantity it)%Q).
Proof.
  destruct (consume_walked nm qty tz w) as (ds & rem' & inv' & c' & Hrun & Hwalk).
  eexists _, _. split; [exact Hrun|]. simpl. split; [done|].
  assert (Hrows : forall r, r ∈ select_for_consume nm (current w) ->
            inventory (current w) !! r.1 = Some r.2).
  { intros r Hr. by apply elem_of_select_for_consume in Hr as [? _]. }
  pose proof (NoDup_select_for_consume nm (current w)) as Hnd.
  split.
  - intros id it Hit Hname.
    rewrite (walked_frame _ _ _ _ _ _ _ _ _ Hwalk); [done|].
    rewrite (walked_prefix _ _ _ _ _ _ _ _ _ Hwalk). intros Hmem.
    apply list_elem_of_fmap in Hmem as (r & -> & Hr).
    apply subseteq_take in Hr.
    apply elem_of_select_for_consume in Hr as [Hr Hnm]. congruence.
  - intros id it' Hit'.
    destruct (walked_kept _ _ _ _ _ _ _ _ _ Hwalk Hrows Hnd id it' Hit')
      as (it & Hit & [->|(q & ts & -> & Hq)]).
    + exists it. repeat split; try done. lra.
    + exists it. repeat split; try done. simpl. lra.
Qed.

(** X4: the details of a [consume] name each batch at most once, and only
    batches of the name; an entry with deleted = true records the quantity
    that the batch had, and the batch is gone after the call; an entry with
    deleted = false can only be the last one, and its batch is still there
    after the call, with every column but quantity and updated_at as it
    was. *)
Theorem consume_details_are_sound (nm : string) (qty : Q) (tz : string) (w : World) :
  exists w' o,
    consume nm qty tz w = (w', Ok o) /\
    NoDup (touched o) /\
    (forall i d, details o !! i = Some d -> deleted d = false ->
       S i = length (details o)) /\
    (forall d, d ∈ details o ->
       exists it,
         inventory (current w) !! row_id d = Some it /\ name it = nm /\
         if deleted d
         then consumed d = quantity it /\ inventory (current w') !! row_id d = None
         else exists it',
                inventory (current w') !! row_id d = Some it' /\
                name it' = name it /\ unit it' = unit it /\
                in_at it' = in_at it /\ exp_at it' = exp_at it /\
                exp_source it' = exp_source it /\ created_at it' = created_at it).
Proof.
  destruct (consume_walked nm qty tz w) as (ds & rem' & inv' & c' & Hrun & Hwalk).
  eexists _, _. split; [exact Hrun|]. unfold touched. simpl.
  assert (Hrows : forall r, r ∈ select_for_consume nm (current w) ->
            inventory (current w) !! r.1 = Some r.2).
  { intros r Hr. by apply elem_of_select_for_consume in Hr as [? _]. }
  pose proof (NoDup_select_for_consume nm (current w)) as Hnd.
  split; [|split].
  - rewrite (walked_prefix _ _ _ _ _ _ _ _ _ Hwalk).
    eapply sublist_NoDup; [exact Hnd|]. apply fmap_sublist, sublist_take.
  - intros i d Hd Hdel.
    destruct (walked_positions _ _ _ _ _ _ _ _ _ Hwalk i d Hd) as (r & _ & _ & Hcase).
    destruct Hcase as [[Hdel' _]|[_ Hlast]]; [congruence|done].
  - intros d Hd. destruct (deleted d) eqn:Hdel.
    + pose proof Hd as Hd'. apply list_elem_of_lookup in Hd' as [i Hi].
      destruct (walked_positions _ _ _ _ _ _ _ _ _ Hwalk i d Hi)
        as (r & Hr & Hid & Hcase).
      destruct Hcase as [[_ Hc]|[Hnd' _]]; [|congruence].
      assert (Hin : r ∈ select_for_consume nm (current w)).
      { apply list_elem_of_lookup. by exists i. }
      apply elem_of_select_for_consume in Hin as [Hlook Hname].
      exists r.2. rewrite Hid. split; [done|]. split; [done|]. split; [done|].
      rewrite <- Hid. by apply (walked_deleted _ _ _ _ _ _ _ _ _ Hwalk Hnd d).
    + destruct (walked_partial _ _ _ _ _ _ _ _ _ Hwalk Hrows Hnd d Hd Hdel)
        as (r & q & ts & Hr & Hid & Hlook).
      apply elem_of_select_for_consume in Hr as [Hr Hname].
      exists r.2. rewrite Hid. split; [done|]. split; [done|].
      by exists (set_quantity q ts r.2).
Qed.

End ConsumeMore.

(** ** Dates written and read back *)

Section ReadBack.
Context `{Platform}.

(** X5: the text that [_to_date_str] writes for a date of the year 1000
    or later has ten characters and is read back by both parsers as the
    same date, at their first stage, on any platform and in any zone,
    without the clock being read. *)
Theorem date_text_round_trip (y m d : Z) (dt : date) (tz : string) (w : World) :
  1000 <= y ->
  make_date y m d = Some dt ->
  String.length (_to_date_str dt) = 10%nat /\
  strptime (_to_date_str dt) = Some dt /\
  _parse_text_to_date (_to_date_str dt) tz = Ok dt /\
  _parse_to_date (Some (_to_date_str dt)) tz w = (w, Ok dt).
Proof.
  intros Hy Hdt. pose proof (strptime_to_date_str y m d dt Hy Hdt) as Hread.
  assert (Hyear : 1000 <= year dt).
  { by destruct (make_date_Some y m d dt Hdt) as (-> & _). }
  split; [by apply to_date_str_length|]. split; [done|]. split.
  - unfold _parse_text_to_date. by rewrite strip_to_date_str, Hread.
  - pose proof (strip_to_date_str dt) as Hstrip.
    rewrite (to_date_str_four dt Hyear) in *.
    unfold pad4 in *. unfold _parse_to_date.
    by rewrite Hstrip, Hread.
Qed.

End ReadBack.

Section ReadBackExamples.
Import Examples.
Local Existing Instance Reference.platform.

Lemma date_text_round_trip_witness :
  String.length (_to_date_str (mkdate 2024 2 29)) = 10%nat /\
  strptime (_to_date_str (mkdate 2024 2 29)) = Some (mkdate 2024 2 29) /\
  _parse_text_to_date (_to_date_str (mkdate 2024 2 29)) tz = Ok (mkdate 2024 2 29) /\
  _parse_to_date (Some (_to_date_str (mkdate 2024 2 29))) tz fresh_world
    = (fresh_world, Ok (mkdate 2024 2 29)).
Proof.
  apply (date_text_round_trip 2024 2 29 (mkdate 2024 2 29) tz fresh_world).
  - lia.
  - reflexivity.
Defined.

End ReadBackExamples.

(** ** Blanks around a date text *)

Lemma lstrip_head (s : string) :
  lstrip s = EmptyString \/ exists c r, lstrip s = String c r /\ isspace c = false.
Proof.
  induction s as [|c s IH]; simpl; [by left|].
  destruct (isspace c) eqn:Hc; [done|]. right. by exists c, s.
Qed.

Lemma rstrip_rstrip (s : string) : rstrip (rstrip s) = rstrip s.
Proof.
  induction s as [|c s IH]; simpl; [done|].
  destruct (rstrip s) as [|a r] eqn:Hr.
  - destruct (isspace c) eqn:Hc; simpl; [done|]. by rewrite Hc.
  - change (rstrip (String c (String a r))) with
      (match rstrip (String a r) with
       | EmptyString => if isspace c then EmptyString else String c EmptyString
       | r' => String c r'
       end).
    by rewrite IH.
Qed.

Lemma strip_strip (s : string) : strip (strip s) = strip s.
Proof.
  unfold strip. destruct (lstrip_head s) as [->|(c & r & -> & Hc)]; [done|].
  rewrite (rstrip_cons c r Hc), (lstrip_cons c (rstrip r) Hc).
  rewrite <- (rstrip_cons c r Hc). apply rstrip_rstrip.
Qed.

Lemma rstrip_app_space (s : string) (c : ascii) :
  isspace c = true -> rstrip (String.append s (String c EmptyString)) = rstrip s.
Proof.
  intros Hc. induction s as [|a s IH]; simpl.
  - by rewrite Hc.
  - by rewrite IH.
Qed.

Lemma strip_app_space (s : string) (c : ascii) :
  isspace c = true -> strip (String.append s (String c EmptyString)) = strip s.
Proof.
  intros Hc. unfold strip. induction s as [|a s IH]; simpl.
  - by rewrite Hc.
  - destruct (isspace a) eqn:Ha; [done|].
    rewrite !(rstrip_cons a) by done. f_equal. by apply rstrip_app_space.
Qed.

Section Blanks.
Context `{Platform}.

(** X6: the parser of the storage layer does not see white space around
    the text: a text and the text stripped parse alike, and so do a text
    and the text with one more blank character in front of it or behind
    it. *)
Theorem parser_ignores_blanks (s tz : string) (c : ascii) :
  isspace c = true ->
  _parse_text_to_date (strip s) tz = _parse_text_to_date s tz /\
  _parse_text_to_date (String c s) tz = _parse_text_to_date s tz /\
  _parse_text_to_date (String.append s (String c EmptyString)) tz
    = _parse_text_to_date s tz.
Proof.
  intros Hc. unfold _parse_text_to_date. split; [|split].
  - by rewrite strip_strip.
  - unfold strip. simpl lstrip. by rewrite Hc.
  - by rewrite strip_app_space.
Qed.

End Blanks.

Section BlanksExamples.
Import Examples.
Local Existing Instance Reference.platform.

Lemma parser_ignores_blanks_witness :
  _parse_text_to_date (strip " 2024-01-02 ") tz = _parse_text_to_date " 2024-01-02 " tz /\
  _parse_text_to_date (String " " " 2024-01-02 ") tz = _parse_text_to_date " 2024-01-02 " tz /\
  _parse_text_to_date (String.append " 2024-01-02 " (String " " EmptyString)) tz
    = _parse_text_to_date " 2024-01-02 " tz.
Proof. apply (parser_ignores_blanks " 2024-01-02 " tz " "%char). reflexivity. Defined.

End BlanksExamples.

(** ** Adding a batch *)

Lemma max_rowid_ge (t : gmap Z Item) (id : Z) (it : Item) :
  t !! id = Some it -> id <= max_rowid t.
Proof.
  unfold max_rowid. revert id it.
  apply (map_fold_weak_ind
           (fun r (m : gmap Z Item) => forall id it, m !! id = Some it -> id <= r)).
  - intros id it Hit. by rewrite lookup_empty in Hit.
  - intros i x m r Hi IH id it Hit.
    destruct (decide (i = id)) as [->|Hne]; [lia|].
    rewrite lookup_insert_ne in Hit by done. specialize (IH id it Hit). lia.
Qed.

Section Adding.
Context `{Platform}.

(** X7: [add_item] with a quantity of zero or more returns an id that is
    above the sequence and above every id in the table, stores the batch
    under it with both dates as YYYY-MM-DD texts and both time stamps set
    to the time of the call, leaves every other batch and the defaults as
    they were, records the id as the sequence, and commits. *)
Theorem add_item_inserts (nm : string) (qty : Q) (u : option string)
    (i e : date) (src : ExpSource) (tz : string) (w : World) :
  (0 <= qty)%Q ->
  exists id w',
    add_item nm qty u i e src tz w = (w', Ok id) /\
    sqlite_sequence (current w) < id /\
    (forall j it, inventory (current w) !! j = Some it -> j < id) /\
    inventory (current w')
      = <[id := mkItem nm qty u (_to_date_str i) (_to_date_str e) src
                  (isoformat (now (clock w) tz)) (isoformat (now (clock w) tz))]>
          (inventory (current w)) /\
    shelf_life_defaults (current w') = shelf_life_defaults (current w) /\
    sqlite_sequence (current w') = id /\
    committed w' = current w'.
Proof.
  intros Hqty. apply Qle_bool_true in Hqty.
  unfold add_item. rewrite bind_eq, now_text_run, bind_eq.
  unfold execute, insert_item, check_item. cbn [quantity current committed clock].
  rewrite Hqty. rewrite bind_eq. unfold commit, ret. cbn [current committed clock].
  eexists _, _. split; [reflexivity|]. cbn [current committed clock inventory
    sqlite_sequence shelf_life_defaults].
  split; [lia|]. split; [|done].
  intros j it Hj. pose proof (max_rowid_ge _ _ _ Hj). lia.
Qed.

(** X8: [update_item_exp_by_id] on an id that is not in the table returns
    0 and changes no row; on an id that is there it returns 1 and sets
    exp_at to the YYYY-MM-DD text of the date, exp_source to the source
    given and updated_at to the time of the call, and nothing else of the
    row and no other row; in both cases it commits. *)
Theorem update_item_exp_by_id_sets (item_id : Z) (d : date) (tz : string)
    (src : ExpSource) (w : World) :
  exists w',
    update_item_exp_by_id item_id d tz src w
      = (w', Ok (match inventory (current w) !! item_id with Some _ => 1 | None => 0 end)) /\
    committed w' = current w' /\
    shelf_life_defaults (current w') = shelf_life_defaults (current w) /\
    (forall j, j <> item_id ->
       inventory (current w') !! j = inventory (current w) !! j) /\
    inventory (current w') !! item_id
      = (fun it => mkItem (name it) (quantity it) (unit it) (in_at it) (_to_date_str d)
                     src (created_at it) (isoformat (now (clock w) tz)))
          <$> inventory (current w) !! item_id.
Proof.
  unfold update_item_exp_by_id. rewrite bind_eq, now_text_run, bind_eq.
  unfold execute, update_item. cbn [current committed clock].
  destruct (inventory (current w) !! item_id) as [it|] eqn:Hit.
  - rewrite bind_eq. unfold commit, ret. cbn [current committed clock].
    eexists. split; [reflexivity|]. cbn [current committed clock inventory
      with_inventory shelf_life_defaults].
    split; [done|]. split; [done|]. split.
    + intros j Hj. by rewrite lookup_insert_ne.
    + by rewrite lookup_insert_eq.
  - rewrite bind_eq. unfold commit, ret. cbn [current committed clock].
    eexists. split; [reflexivity|]. cbn [current committed clock].
    split; [done|]. split; [done|]. split; [done|]. by rewrite Hit.
Qed.

End Adding.

Section AddingExamples.
Import Examples.
Local Existing Instance Reference.platform.

Lemma add_item_inserts_witness :
  exists id w',
    add_item "milk" 2 None (mkdate 2024 1 1) (mkdate 2024 1 4) src_user tz one_milk
      = (w', Ok id) /\
    sqlite_sequence (current one_milk) < id /\
    (forall j it, inventory (current one_milk) !! j = Some it -> j < id) /\
    inventory (current w')
      = <[id := mkItem "milk" 2 None (_to_date_str (mkdate 2024 1 1))
                  (_to_date_str (mkdate 2024 1 4)) src_user
                  (isoformat (now (clock one_milk) tz))
                  (isoformat (now (clock one_milk) tz))]>
          (inventory (current one_milk)) /\
    shelf_life_defaults (current w') = shelf_life_defaults (current one_milk) /\
    sqlite_sequence (current w') = id /\
    committed w' = current w'.
Proof.
  apply (add_item_inserts "milk" 2 None (mkdate 2024 1 1) (mkdate 2024 1 4)
           src_user tz one_milk).
  discriminate.
Defined.

End AddingExamples.

(** ** Properties of the database that every call keeps

    A property of the database that the connection sees is kept by a
    function as soon as the statements that the function executes keep
    it. Each lemma of the section depends on the statements that its
    function executes, and on no other. *)

Lemma current_tick (Q : Db -> Prop) : preserves (fun w => Q (current w)) tick.
Proof. by intros w. Qed.

Lemma current_commit (Q : Db -> Prop) : preserves (fun w => Q (current w)) commit.
Proof. by intros w. Qed.

Lemma current_execute {A} (Q : Db -> Prop) (stmt : Db -> result (Db * A)) :
  (forall db db' a, Q db -> stmt db = Ok (db', a) -> Q db') ->
  preserves (fun w => Q (current w)) (execute stmt).
Proof.
  intros Hstmt w Hw. unfold execute.
  destruct (stmt (current w)) as [[db a]|e] eqn:E; simpl; [|done].
  exact (Hstmt _ _ _ Hw E).
Qed.

#[export] Hint Resolve current_tick current_commit : ledger.

Ltac holds :=
  repeat first
    [ progress (intros; simpl)
    | solve [eauto with ledger]
    | apply preserves_bind
    | apply current_execute
    | match goal with
      | |- preserves _ (match ?x with _ => _ end) => destruct x
      | |- preserves _ (let (_, _) := ?x in _) => destruct x
      | |- preserves _ (if ?x then _ else _) => destruct x
      end ].

Section Invariant.
Context `{Platform}.
Variable Q : Db -> Prop.

Hypothesis Q_insert : forall nm qty u i e src ts db db' id,
  Q db ->
  insert_item (mkItem nm qty u (_to_date_str i) (_to_date_str e) src ts ts) db
    = Ok (db', id) ->
  Q db'.
Hypothesis Q_set_exp : forall id e ts db db' n,
  Q db -> update_item id (set_exp (_to_date_str e) ts) db = Ok (db', n) -> Q db'.
Hypothesis Q_set_exp_user : forall id e ts db db' n,
  Q db ->
  update_item id (set_exp_source (_to_date_str e) src_user ts) db = Ok (db', n) ->
  Q db'.
Hypothesis Q_delete : forall id db db' u,
  Q db -> delete_item id db = Ok (db', u) -> Q db'.
Hypothesis Q_upsert : forall nm dys ts db db' u,
  Q db -> upsert_default nm dys ts db = Ok (db', u) -> Q db'.
Hypothesis Q_quantity : forall id q ts db db' n,
  Q db -> update_quantity id q ts db = Ok (db', n) -> Q db'.

Local Notation P := (fun w : World => Q (current w)).

Lemma kept_now_text (tz : string) : preserves P (_now_text tz).
Proof. unfold _now_text. holds. Qed.

Lemma kept_today (tz : string) : preserves P (today tz).
Proof. unfold today. holds. Qed.

Hint Resolve kept_now_text kept_today : ledger.

Lemma kept_parse_to_date s tz : preserves P (_parse_to_date s tz).
Proof. unfold _parse_to_date. holds. Qed.

Lemma kept_upsert_default_days nm dys tz : preserves P (upsert_default_days nm dys tz).
Proof. unfold upsert_default_days. holds. Qed.

Lemma kept_add_item nm qty u i e src tz : preserves P (add_item nm qty u i e src tz).
Proof. unfold add_item. holds. Qed.

Lemma kept_recalc_loop rows new_days ts tz changed :
  preserves P (recalc_loop rows new_days ts tz changed).
Proof.
  revert changed. induction rows as [|r rows IH]; intros changed; simpl; holds.
Qed.

Hint Resolve kept_parse_to_date kept_upsert_default_days kept_add_item
  kept_recalc_loop : ledger.

Lemma kept_update_default_and_recalc_items nm new_days tz :
  preserves P (update_default_and_recalc_items nm new_days tz).
Proof. unfold update_default_and_recalc_items. holds. Qed.

Lemma kept_update_item_exp_by_id item_id d tz :
  preserves P (update_item_exp_by_id item_id d tz src_user).
Proof. unfold update_item_exp_by_id. holds. Qed.

Lemma kept_consume_loop rows tz rem dets :
  preserves P (consume_loop rows tz rem dets).
Proof.
  revert rem dets. induction rows as [|r rows IH]; intros rem dets; simpl; holds.
Qed.

Hint Resolve kept_update_default_and_recalc_items kept_update_item_exp_by_id
  kept_consume_loop : ledger.

Lemma kept_consume nm qty tz : preserves P (consume nm qty tz).
Proof. unfold consume. holds. Qed.

Lemma kept_update_targets targets p tz updated :
  preserves P (update_targets targets p tz updated).
Proof.
  revert updated. induction targets as [|r rows IH]; intros updated; simpl; holds.
Qed.

Hint Resolve kept_consume kept_update_targets : ledger.

Lemma kept_add_action p tz : preserves P (add_action p tz).
Proof. unfold add_action, get_default_days. holds. Qed.

Lemma kept_set_shelf_life_action p tz : preserves P (set_shelf_life_action p tz).
Proof. unfold set_shelf_life_action. holds. Qed.

Lemma kept_update_expiry_action p tz : preserves P (update_expiry_action p tz).
Proof. unfold update_expiry_action, list_inventory, get_items_by_name. holds. Qed.

Lemma kept_inventory_fn a p tz w :
  Q (current w) -> Q (current (_inventory_fn a p tz w).1).
Proof.
  intros Hw. unfold _inventory_fn.
  assert (Hkeep : preserves P
            match a with
            | add => add_action p tz
            | consume_ => consume_action p tz
            | discard_ => discard_action p tz
            | set_shelf_life => set_shelf_life_action p tz
            | update_expiry => update_expiry_action p tz
            end).
  { destruct a.
    - apply kept_add_action.
    - unfold consume_action. holds.
    - unfold discard_action, discard. holds.
    - apply kept_set_shelf_life_action.
    - apply kept_update_expiry_action. }
  revert Hkeep. generalize (match a with
                            | add => add_action p tz
                            | consume_ => consume_action p tz
                            | discard_ => discard_action p tz
                            | set_shelf_life => set_shelf_life_action p tz
                            | update_expiry => update_expiry_action p tz
                            end).
  intros m Hkeep. specialize (Hkeep w Hw). simpl in Hkeep.
  by destruct (m w) as [w' [r|e]].
Qed.

Lemma kept_reachable (w : World) : Q empty_db -> reachable w -> Q (current w).
Proof.
  intros Hempty. induction 1 as [|a p tz w _ IH]; [done|].
  by apply kept_inventory_fn.
Qed.

End Invariant.

(** ** What a recalculation and an update of the expiry leave alone *)

Lemma inventory_fn_world `{Platform} (a : Action) (p : Payload) (tz : string)
    (w : World) :
  (_inventory_fn a p tz w).1 =
    (match a with
     | add => add_action p tz
     | consume_ => consume_action p tz
     | discard_ => discard_action p tz
     | set_shelf_life => set_shelf_life_action p tz
     | update_expiry => update_expiry_action p tz
     end w).1.
Proof. unfold _inventory_fn. by destruct (_ w) as [w' [r|e]]. Qed.

Section Frames.
Context `{Platform}.

Lemma recalc_loop_frame rows new_days ts tz : forall changed w id,
  id ∉ rows.*1 ->
  inventory (current (recalc_loop rows new_days ts tz changed w).1) !! id
    = inventory (current w) !! id.
Proof.
  induction rows as [|r rows IH]; intros changed w id Hid; simpl; [done|].
  apply not_elem_of_cons in Hid as [Hne Hid].
  rewrite bind_eq. unfold lift.
  destruct (_parse_text_to_date (in_at r.2) tz) as [d|]; [|done].
  rewrite bind_eq. destruct (add_days d new_days) as [e|]; [|done].
  simpl of_option. cbv iota beta. rewrite bind_eq. unfold execute, update_item.
  destruct (inventory (current w) !! r.1) as [it|].
  - rewrite IH by done. simpl. by rewrite lookup_insert_ne.
  - rewrite IH by done. done.
Qed.

(** The columns that neither a recalculation nor an update of the expiry
    writes. *)
Local Notation same_batch it it' :=
  (name it' = name it /\ quantity it' = quantity it /\ unit it' = unit it /\
   in_at it' = in_at it /\ created_at it' = created_at it).

Local Notation related R inv0 db :=
  (forall id : Z,
     match inv0 !! id, inventory db !! id with
     | Some it, Some it' => R it it'
     | None, None => True
     | _, _ => False
     end).

Lemma related_update (R : Item -> Item -> Prop) (inv0 : gmap Z Item)
    (id : Z) (f : Item -> Item) (db db' : Db) (n : Z) :
  (forall it it', R it it' -> R it (f it')) ->
  related R inv0 db -> update_item id f db = Ok (db', n) -> related R inv0 db'.
Proof.
  intros Hf Hrel. unfold update_item.
  destruct (inventory db !! id) as [r|] eqn:Hr; intros [= <- _]; [|done].
  intros j. specialize (Hrel j). simpl.
  destruct (decide (id = j)) as [->|Hne].
  - rewrite lookup_insert_eq. rewrite Hr in Hrel.
    destruct (inv0 !! j); [by apply Hf|done].
  - by rewrite lookup_insert_ne.
Qed.

Lemma related_upsert (R : Item -> Item -> Prop) (inv0 : gmap Z Item)
    nm dys ts (db db' : Db) (u : Datatypes.unit) :
  related R inv0 db -> upsert_default nm dys ts db = Ok (db', u) -> related R inv0 db'.
Proof.
  intros Hrel. unfold upsert_default.
  destruct (sqlite_integer dys); [|done]. destruct (0 <? dys); [|done].
  by intros [= <- _].
Qed.

(** X9: a recalculation, whether it returns or raises, leaves every batch
    that is not a batch of the name with a default expiry exactly as it
    was; it adds and removes no batch, and of the batches it rewrites it
    keeps the name, the quantity, the unit, the stock-in date, the source
    of the expiry and created_at. *)
Theorem recalculation_spares_the_rest (nm : string) (new_days : Z) (tz : string)
    (w : World) :
  let w' := (update_default_and_recalc_items nm new_days tz w).1 in
  (forall id it, inventory (current w) !! id = Some it ->
     ~ (name it = nm /\ exp_source it = src_default) ->
     inventory (current w') !! id = Some it) /\
  (forall id, inventory (current w) !! id = None ->
     inventory (current w') !! id = None) /\
  (forall id it, inventory (current w) !! id = Some it ->
     exists it', inventory (current w') !! id = Some it' /\
       name it' = name it /\ quantity it' = quantity it /\ unit it' = unit it /\
       in_at it' = in_at it /\ exp_source it' = exp_source it /\
       created_at it' = created_at it).
Proof.
  intros w'.
  assert (Hrel : related
            (fun it it' => same_batch it it' /\ exp_source it' = exp_source it)
            (inventory (current w)) (current w')).
  { apply (kept_update_default_and_recalc_items
             (fun db => related
                (fun it it' => same_batch it it' /\ exp_source it' = exp_source it)
                (inventory (current w)) db)).
    - intros id e ts db db' n Hrel Hup.
      apply (related_update _ _ id (set_exp (_to_date_str e) ts) db db' n); try done;
        intros it it' Hsame; simpl; tauto.
    - intros nm' dys ts db db' u Hrel Hup. by eapply related_upsert.
    - intros id. by destruct (inventory (current w) !! id). }
  split; [|split].
  - intros id it Hit Hsel. subst w'.
    unfold update_default_and_recalc_items.
    rewrite bind_eq, upsert_default_days_run. unfold upsert_default.
    destruct (sqlite_integer new_days); [|done].
    destruct (0 <? new_days); [|done].
    rewrite bind_eq. unfold fetchall. rewrite bind_eq, now_text_run, bind_eq.
    cbn [committed current clock].
    match goal with
    | |- context [recalc_loop ?rows ?n ?ts ?z ?c ?w0] =>
        pose proof (recalc_loop_frame rows n ts z c w0 id) as Hframe;
        destruct (recalc_loop rows n ts z c w0) as [w1 [k|e]]
    end; simpl in *; (rewrite Hframe; [done|]);
      intros Hmem; apply list_elem_of_fmap in Hmem as (r & -> & Hr);
      apply elem_of_select_default_rows in Hr as (Hr & ? & ?); simpl in Hr;
      apply Hsel; assert (it = r.2) as -> by congruence; done.
  - intros id Hid. specialize (Hrel id). rewrite Hid in Hrel.
    by destruct (inventory (current w') !! id).
  - intros id it Hit. specialize (Hrel id). rewrite Hit in Hrel.
    destruct (inventory (current w') !! id) as [it'|]; [|done].
    exists it'. tauto.
Qed.

(** X10: an update of the expiry through the tool, whatever its arguments
    and its answer, adds and removes no batch and leaves the defaults as
    they were; of every batch it keeps the name, the quantity, the unit,
    the stock-in date and created_at, and a batch that is not exactly as
    before has its expiry marked as given by the user. *)
Theorem update_expiry_keeps_the_batches (p : Payload) (tz : string) (w : World) :
  let w' := (_inventory_fn update_expiry p tz w).1 in
  shelf_life_defaults (current w') = shelf_life_defaults (current w) /\
  (forall id, inventory (current w) !! id = None ->
     inventory (current w') !! id = None) /\
  (forall id it, inventory (current w) !! id = Some it ->
     exists it', inventory (current w') !! id = Some it' /\
       name it' = name it /\ quantity it' = quantity it /\ unit it' = unit it /\
       in_at it' = in_at it /\ created_at it' = created_at it /\
       (it' = it \/ exp_source it' = src_user)).
Proof.
  intros w'. subst w'. rewrite inventory_fn_world.
  set (w' := (update_expiry_action p tz w).1).
  assert (Hrel : shelf_life_defaults (current w') = shelf_life_defaults (current w) /\
            related
              (fun it it' => same_batch it it' /\ (it' = it \/ exp_source it' = src_user))
              (inventory (current w)) (current w')).
  { apply (kept_update_expiry_action
             (fun db => shelf_life_defaults db = shelf_life_defaults (current w) /\
                related
                  (fun it it' =>
                     same_batch it it' /\ (it' = it \/ exp_source it' = src_user))
                  (inventory (current w)) db)).
    - intros id e ts db db' n [Hs Hrel] Hup. split.
      + revert Hup. unfold update_item.
        destruct (inventory db !! id); by intros [= <- _].
      + apply (related_update _ _ id (set_exp_source (_to_date_str e) src_user ts)
                 db db' n); try done;
          intros it it' Hsame; simpl; tauto.
    - split; [done|]. intros id. destruct (inventory (current w) !! id); [|done].
      tauto. }
  destruct Hrel as [Hs Hrel]. split; [done|]. split.
  - intros id Hid. specialize (Hrel id). rewrite Hid in Hrel.
    by destruct (inventory (current w') !! id).
  - intros id it Hit. specialize (Hrel id). rewrite Hit in Hrel.
    destruct (inventory (current w') !! id) as [it'|]; [|done].
    exists it'. tauto.
Qed.

End Frames.

(** ** Ids are not handed out twice *)

Section Sequence.
Context `{Platform}.

Lemma add_item_run nm (q : Q) u i e src tz (w : World) :
  add_item nm q u i e src tz w =
    if Qle_bool 0 q then
      let id := Z.max (sqlite_sequence (current w)) (max_rowid (inventory (current w))) + 1 in
      let db := mkDb (shelf_life_defaults (current w))
                  (<[id := mkItem nm q u (_to_date_str i) (_to_date_str e) src
                             (isoformat (now (clock w) tz)) (isoformat (now (clock w) tz))]>
                     (inventory (current w))) id in
      (mkWorld db db (S (clock w)), Ok id)
    else (mkWorld (committed w) (current w) (S (clock w)), Raise IntegrityError).
Proof.
  unfold add_item. rewrite bind_eq, now_text_run, bind_eq.
  unfold execute, insert_item, check_item. cbn [quantity current committed clock].
  by destruct (Qle_bool 0 q).
Qed.

Lemma add_action_sequence (p : Payload) (tz : string) (w : World) :
  match add_action p tz w with
  | (w', Ok (Added id _ _ _ _ _ _)) =>
      sqlite_sequence (current w) < id /\ sqlite_sequence (current w') = id
  | _ => True
  end.
Proof.
  unfold add_action.
  destruct (given (p_name p)) as [nm|]; [|done].
  destruct (p_quantity p) as [q|]; [|done].
  rewrite bind_eq.
  destruct (parse_to_date_dbs (p_in_at p) tz w) as [_ Hd1].
  destruct (_parse_to_date (p_in_at p) tz w) as [w1 [in_d|e]]; [|done].
  simpl in Hd1. rewrite bind_eq.
  destruct (p_exp_days p) as [n|].
  { rewrite bind_eq. unfold lift. destruct (add_days in_d n) as [d|]; [|done].
    simpl. rewrite bind_eq, add_item_run. destruct (Qle_bool 0 q); [|done].
    simpl. rewrite Hd1. lia. }
  destruct (p_exp_at p) as [raw|].
  { rewrite bind_eq.
    destruct (parse_to_date_dbs (Some raw) tz w1) as [_ Hd2].
    destruct (_parse_to_date (Some raw) tz w1) as [w2 [d|e]]; [|done].
    simpl in Hd2. simpl. rewrite bind_eq, add_item_run.
    destruct (Qle_bool 0 q); [|done]. simpl. rewrite Hd2, Hd1. lia. }
  rewrite bind_eq. unfold get_default_days, fetchall.
  destruct (select_default_days nm (current w1)) as [dys|].
  - unfold bind, ret, lift.
    destruct (add_days in_d dys) as [d|]; [|exact I].
    simpl. rewrite add_item_run. destruct (Qle_bool 0 q); [|exact I].
    simpl. rewrite Hd1. lia.
  - unfold bind at 1 2 3. rewrite upsert_default_days_run.
    unfold upsert_default. change (sqlite_integer 7) with true.
    change (0 <? 7) with true. cbv iota.
    unfold bind, ret, lift.
    destruct (add_days in_d 7) as [d|]; [|exact I].
    simpl. rewrite add_item_run. destruct (Qle_bool 0 q); [|exact I].
    simpl. rewrite Hd1. lia.
Qed.

Lemma sequence_bounds_ids (w : World) :
  reachable w ->
  forall id it, inventory (current w) !! id = Some it -> id <= sqlite_sequence (current w).
Proof.
  apply (kept_reachable
           (fun db => forall id it, inventory db !! id = Some it -> id <= sqlite_sequence db)).
  - intros nm qty u i e src ts db db' id Hq. unfold insert_item.
    destruct (check_item _); [|done]. intros [= <- _] j it. simpl.
    destruct (decide (Z.max (sqlite_sequence db) (max_rowid (inventory db)) + 1 = j))
      as [<-|Hne]; [lia|].
    rewrite lookup_insert_ne by done. intros Hj. specialize (Hq j it Hj). lia.
  - intros id e ts db db' n Hq. unfold update_item.
    destruct (inventory db !! id) as [r|] eqn:Hr; intros [= <- _]; [|done].
    intros j it. simpl. destruct (decide (id = j)) as [<-|Hne].
    + intros _. by apply (Hq id r).
    + rewrite lookup_insert_ne by done. apply Hq.
  - intros id e ts db db' n Hq. unfold update_item.
    destruct (inventory db !! id) as [r|] eqn:Hr; intros [= <- _]; [|done].
    intros j it. simpl. destruct (decide (id = j)) as [<-|Hne].
    + intros _. by apply (Hq id r).
    + rewrite lookup_insert_ne by done. apply Hq.
  - intros id db db' u Hq [= <- _] j it. simpl.
    intros Hj. apply lookup_delete_Some in Hj as [_ Hj]. by apply (Hq j it).
  - intros nm dys ts db db' u Hq. unfold upsert_default.
    destruct (sqlite_integer dys); [|done].
    destruct (0 <? dys); [|done]. by intros [= <- _].
  - intros id q ts db db' n Hq. unfold update_quantity.
    destruct (inventory db !! id) as [r|] eqn:Hr; [|by intros [= <- _]].
    destruct (Qle_bool 0 q); [|done]. intros [= <- _].
    intros j it. simpl. destruct (decide (id = j)) as [<-|Hne].
    + intros _. by apply (Hq id r).
    + rewrite lookup_insert_ne by done. apply Hq.
  - intros id it Hit. simpl in Hit. by rewrite lookup_empty in Hit.
Qed.

Lemma sequence_grows (a : Action) (p : Payload) (tz : string) (w : World) :
  sqlite_sequence (current w) <= sqlite_sequence (current (_inventory_fn a p tz w).1).
Proof.
  apply (kept_inventory_fn
           (fun db => sqlite_sequence (current w) <= sqlite_sequence db)); [..|lia].
  - intros nm qty u i e src ts db db' id Hq. unfold insert_item.
    destruct (check_item _); [|done]. intros [= <- _]. simpl. lia.
  - intros id e ts db db' n Hq. unfold update_item.
    destruct (inventory db !! id); by intros [= <- _].
  - intros id e ts db db' n Hq. unfold update_item.
    destruct (inventory db !! id); by intros [= <- _].
  - by intros id db db' u Hq [= <- _].
  - intros nm dys ts db db' u Hq. unfold upsert_default.
    destruct (sqlite_integer dys); [|done].
    destruct (0 <? dys); [|done]. by intros [= <- _].
  - intros id q ts db db' n Hq. unfold update_quantity.
    destruct (inventory db !! id); [|by intros [= <- _]].
    destruct (Qle_bool 0 q); [|done]. by intros [= <- _].
Qed.

(** X11: in every state that calls of the tool reach from an empty database
    no batch has an id above the sequence; no call lowers the sequence;
    and an [add] that answers with an id answers with one above the
    sequence, which it then records. So an id that was handed out once,
    also to a batch that has been consumed since, is not handed out
    again. *)
Theorem ids_are_not_reused (w : World) :
  reachable w ->
  (forall id it, inventory (current w) !! id = Some it ->
     id <= sqlite_sequence (current w)) /\
  (forall a p tz,
     sqlite_sequence (current w) <= sqlite_sequence (current (_inventory_fn a p tz w).1)) /\
  (forall p tz id nm q u i e s,
     (_inventory_fn add p tz w).2 = Added id nm q u i e s ->
     sqlite_sequence (current w) < id /\
     sqlite_sequence (current (_inventory_fn add p tz w).1) = id).
Proof.
  intros Hw. split; [by apply sequence_bounds_ids|]. split; [intros a p tz; apply sequence_grows|].
  intros p tz id nm q u i e s. unfold _inventory_fn.
  pose proof (add_action_sequence p tz w) as Hseq.
  destruct (add_action p tz w) as [w' [r|ex]]; simpl; [|done].
  intros ->. done.
Qed.

End Sequence.

(** ** Dates are stored as dates *)

Section DateOnly.
Context `{Platform}.

(** Both dates of every batch are texts that [_to_date_str] wrote. *)
Lemma tool_writes_dates (w : World) :
  reachable w ->
  forall id it, inventory (current w) !! id = Some it ->
    exists i e, in_at it = _to_date_str i /\ exp_at it = _to_date_str e.
Proof.
  apply (kept_reachable
           (fun db => forall id it, inventory db !! id = Some it ->
                        exists i e, in_at it = _to_date_str i /\
                                    exp_at it = _to_date_str e)).
  - intros nm qty u i e src ts db db' id Hq. unfold insert_item.
    destruct (check_item _); [|done]. intros [= <- _] j it. simpl.
    destruct (decide (Z.max (sqlite_sequence db) (max_rowid (inventory db)) + 1 = j))
      as [<-|Hne].
    + rewrite lookup_insert_eq. intros [= <-]. by exists i, e.
    + rewrite lookup_insert_ne by done. apply Hq.
  - intros id e ts db db' n Hq. unfold update_item.
    destruct (inventory db !! id) as [r|] eqn:Hr; intros [= <- _]; [|done].
    intros j it. simpl. destruct (decide (id = j)) as [<-|Hne].
    + rewrite lookup_insert_eq. intros [= <-].
      destruct (Hq id r Hr) as (i & _ & Hi & _). by exists i, e.
    + rewrite lookup_insert_ne by done. apply Hq.
  - intros id e ts db db' n Hq. unfold update_item.
    destruct (inventory db !! id) as [r|] eqn:Hr; intros [= <- _]; [|done].
    intros j it. simpl. destruct (decide (id = j)) as [<-|Hne].
    + rewrite lookup_insert_eq. intros [= <-].
      destruct (Hq id r Hr) as (i & _ & Hi & _). by exists i, e.
    + rewrite lookup_insert_ne by done. apply Hq.
  - intros id db db' u Hq [= <- _] j it. simpl.
    intros Hj. apply lookup_delete_Some in Hj as [_ Hj]. by apply (Hq j it).
  - intros nm dys ts db db' u Hq. unfold upsert_default.
    destruct (sqlite_integer dys); [|done].
    destruct (0 <? dys); [|done]. by intros [= <- _].
  - intros id q ts db db' n Hq. unfold update_quantity.
    destruct (inventory db !! id) as [r|] eqn:Hr; [|by intros [= <- _]].
    destruct (Qle_bool 0 q); [|done]. intros [= <- _].
    intros j it. simpl. destruct (decide (id = j)) as [<-|Hne].
    + rewrite lookup_insert_eq. intros [= <-]. exact (Hq id r Hr).
    + rewrite lookup_insert_ne by done. apply Hq.
  - intros id it Hit. simpl in Hit. by rewrite lookup_empty in Hit.
Qed.

Lemma short_date_text (d : date) :
  not_date_only (_to_date_str d) = true <-> year d < 1000.
Proof.
  unfold not_date_only. rewrite to_date_str_no_T, orb_false_r, negb_true_iff, Nat.eqb_neq.
  rewrite to_date_str_length. lia.
Qed.

(** X12: in every state that calls of the tool reach from an empty database
    both date texts of every batch were written by [_to_date_str], so they
    hold no T, and the migration pass selects a batch exactly when one of
    its two dates is of a year below 1000, whose text is shorter than ten
    characters. When every date text has ten characters the pass selects
    no row and [migrate] changes no row: it commits what is pending and
    returns. *)
Theorem tool_states_need_no_migration (w : World) :
  reachable w ->
  (forall id it, inventory (current w) !! id = Some it ->
     exists i e,
       in_at it = _to_date_str i /\ exp_at it = _to_date_str e /\
       contains "T" (in_at it) = false /\ contains "T" (exp_at it) = false /\
       ((id, it) ∈ select_legacy_rows (current w) <-> year i < 1000 \/ year e < 1000)) /\
  ((forall id it, inventory (current w) !! id = Some it ->
      String.length (in_at it) = 10%nat /\ String.length (exp_at it) = 10%nat) ->
   select_legacy_rows (current w) = [] /\
   migrate w = (mkWorld (current w) (current w) (clock w), Ok tt)).
Proof.
  intros Hw. pose proof (tool_writes_dates w Hw) as Hdates. split.
  - intros id it Hit. destruct (Hdates id it Hit) as (i & e & Hi & He).
    exists i, e. split; [done|]. split; [done|].
    rewrite Hi, He, !to_date_str_no_T. split; [done|]. split; [done|].
    rewrite elem_of_select_legacy_rows. unfold legacy_row. simpl.
    rewrite Hi, He, orb_true_iff, !short_date_text. tauto.
  - intros Hten.
    assert (Hnone : select_legacy_rows (current w) = []).
    { apply elem_of_nil_inv. intros [id it] Hr.
      apply elem_of_select_legacy_rows in Hr as [Hlook Hleg]. simpl in Hlook.
      destruct (Hdates id it Hlook) as (i & e & Hi & He).
      destruct (Hten id it Hlook) as [Hin Hexp].
      unfold legacy_row, not_date_only in Hleg. simpl in Hleg.
      rewrite Hin, Hexp in Hleg. rewrite Hi, He, !to_date_str_no_T in Hleg. done. }
    split; [done|].
    unfold migrate. rewrite bind_eq. unfold commit.
    unfold _normalize_existing_rows_to_date_only. rewrite bind_eq.
    unfold fetchall. cbn [current]. by rewrite Hnone.
Qed.

End DateOnly.

Section InvariantExamples.
Import Examples.
Local Existing Instance Reference.platform.

Lemma ids_are_not_reused_witness :
  (forall id it, inventory (current milk_and_eggs) !! id = Some it ->
     id <= sqlite_sequence (current milk_and_eggs)) /\
  (forall a p tz,
     sqlite_sequence (current milk_and_eggs)
       <= sqlite_sequence (current (_inventory_fn a p tz milk_and_eggs).1)) /\
  (forall p tz id nm q u i e s,
     (_inventory_fn add p tz milk_and_eggs).2 = Added id nm q u i e s ->
     sqlite_sequence (current milk_and_eggs) < id /\
     sqlite_sequence (current (_inventory_fn add p tz milk_and_eggs).1) = id).
Proof.
  apply (ids_are_not_reused milk_and_eggs).
  repeat apply reachable_call. apply reachable_fresh.
Defined.

Lemma tool_states_need_no_migration_witness :
  (forall id it, inventory (current milk_and_eggs) !! id = Some it ->
     exists i e,
       in_at it = _to_date_str i /\ exp_at it = _to_date_str e /\
       contains "T" (in_at it) = false /\ contains "T" (exp_at it) = false /\
       ((id, it) ∈ select_legacy_rows (current milk_and_eggs)
        <-> year i < 1000 \/ year e < 1000)) /\
  ((forall id it, inventory (current milk_and_eggs) !! id = Some it ->
      String.length (in_at it) = 10%nat /\ String.length (exp_at it) = 10%nat) ->
   select_legacy_rows (current milk_and_eggs) = [] /\
   migrate milk_and_eggs
     = (mkWorld (current milk_and_eggs) (current milk_and_eggs) (clock milk_and_eggs),
        Ok tt)).
Proof.
  apply (tool_states_need_no_migration milk_and_eggs).
  repeat apply reachable_call. apply reachable_fresh.
Defined.

(** An [add] stocked in the year 987 stores the nine characters
    987-06-05, and [migrate] then raises on that row. *)
Example early_year_needs_migration :
  let w := (_inventory_fn add (stocked "mead" 1 "0987-06-05" "2024-01-09") tz
              fresh_world).1 in
  in_at <$> inventory (current w) !! 1 = Some "987-06-05" /\
  (migrate w).2 = Raise ValueError.
Proof. split; vm_compute; reflexivity. Qed.

End InvariantExamples.

(** ** The defaults *)

Section Defaults.
Context `{Platform}.

(** X13: [upsert_default_days] with days above zero and below 2^63 returns
    and commits; [get_default_days] then answers those days for the name;
    the defaults of other names and all batches are as before, and a
    default that was there keeps its created_at. With days of zero or
    less it raises IntegrityError, with days outside the signed 64-bit range
    OverflowError, and both databases are as they were. *)
Theorem default_days_round_trip (nm : string) (dys : Z) (tz : string) (w : World) :
  exists w' r,
    upsert_default_days nm dys tz w = (w', r) /\
    if (0 <? dys) && (dys <? 2 ^ 63) then
      r = Ok tt /\
      get_default_days nm w' = (w', Ok (Some dys)) /\
      (forall nm', nm' <> nm ->
         shelf_life_defaults (current w') !! nm' = shelf_life_defaults (current w) !! nm') /\
      default_created_at <$> shelf_life_defaults (current w') !! nm
        = Some (match shelf_life_defaults (current w) !! nm with
                | Some old => default_created_at old
                | None => isoformat (now (clock w) tz)
                end) /\
      inventory (current w') = inventory (current w) /\
      committed w' = current w'
    else
      r = Raise (if (- 2 ^ 63 <=? dys) && (dys <=? 0)
                 then IntegrityError else OverflowError) /\
      current w' = current w /\ committed w' = committed w.
Proof.
  rewrite upsert_default_days_run. unfold upsert_default, sqlite_integer.
  destruct (Z.ltb_spec 0 dys), (Z.ltb_spec dys (2 ^ 63)), (Z.leb_spec (- 2 ^ 63) dys),
    (Z.leb_spec dys 0); try lia; simpl andb; cbv iota;
    eexists _, _; (split; [reflexivity|]); try done.
  split; [done|]. unfold get_default_days, fetchall, select_default_days.
  cbn [current committed clock shelf_life_defaults inventory with_defaults].
  rewrite lookup_insert_eq. split.
  { by destruct (shelf_life_defaults (current w) !! nm). }
  split.
  { intros nm' Hne. by rewrite lookup_insert_ne. }
  split; [|done].
  by destruct (shelf_life_defaults (current w) !! nm).
Qed.


(** X15: an expiry that [update_item_exp_by_id] has set for the user stays
    as set through any later recalculation, for whatever name and number
    of days, whether the recalculation returns or raises. *)
Theorem user_expiry_survives_recalculation (item_id : Z) (d : date) (tz : string)
    (nm : string) (new_days : Z) (tz' : string) (w : World) (it : Item) :
  inventory (current w) !! item_id = Some it ->
  let w1 := (update_item_exp_by_id item_id d tz src_user w).1 in
  let w2 := (update_default_and_recalc_items nm new_days tz' w1).1 in
  inventory (current w2) !! item_id = inventory (current w1) !! item_id /\
  exp_at <$> inventory (current w2) !! item_id = Some (_to_date_str d) /\
  exp_source <$> inventory (current w2) !! item_id = Some src_user.
Proof.
  intros Hit w1 w2.
  assert (Hw1 : inventory (current w1) !! item_id
            = Some (set_exp_source (_to_date_str d) src_user
                      (isoformat (now (clock w) tz)) it)).
  { subst w1. unfold update_item_exp_by_id.
    rewrite bind_eq, now_text_run, bind_eq.
    rewrite (execute_update_item_run _ _ _ it) by done.
    rewrite bind_eq. unfold commit, ret. simpl. by rewrite lookup_insert_eq. }
  assert (Hsame : inventory (current w2) !! item_id = inventory (current w1) !! item_id).
  { subst w2. unfold update_default_and_recalc_items.
    rewrite bind_eq, upsert_default_days_run. unfold upsert_default.
    destruct (sqlite_integer new_days); [|done].
    destruct (0 <? new_days); [|done].
    rewrite bind_eq. unfold fetchall. rewrite bind_eq, now_text_run, bind_eq.
    cbn [committed current clock].
    match goal with
    | |- context [recalc_loop ?rows ?n ?ts ?z ?c ?w0] =>
        pose proof (recalc_loop_frame rows n ts z c w0 item_id) as Hframe;
        destruct (recalc_loop rows n ts z c w0) as [w3 [k|e]]
    end; simpl in *; (rewrite Hframe; [done|]);
      intros Hmem; apply list_elem_of_fmap in Hmem as (r & -> & Hr);
      apply elem_of_select_default_rows in Hr as (Hr & _ & Hsrc); simpl in Hr;
      rewrite Hw1 in Hr; injection Hr as Hr; rewrite <- Hr in Hsrc; done. }
  split; [done|]. rewrite Hsame, Hw1. done.
Qed.

End Defaults.

Section DefaultsExamples.
Import Examples.
Local Existing Instance Reference.platform.


Lemma user_expiry_survives_recalculation_witness :
  let w1 := (update_item_exp_by_id 1 (mkdate 2024 2 1) tz src_user default_milk).1 in
  let w2 := (update_default_and_recalc_items "milk" 10 tz w1).1 in
  inventory (current w2) !! 1 = inventory (current w1) !! 1 /\
  exp_at <$> inventory (current w2) !! 1 = Some (_to_date_str (mkdate 2024 2 1)) /\
  exp_source <$> inventory (current w2) !! 1 = Some src_user.
Proof.
  eapply (user_expiry_survives_recalculation 1 (mkdate 2024 2 1) tz "milk" 10 tz
            default_milk).
  reflexivity.
Defined.

End DefaultsExamples.

(** ** The list columns of a profile *)

Lemma dumps_unique_loop_spec (arr : list string) :
  forall (seen : gset string) (out : list string),
  (forall t, t ∈ seen <-> t ∈ out) ->
  NoDup out ->
  EmptyString ∉ out ->
  exists new,
    dumps_unique_loop arr seen out = (out ++ new)%list /\
    NoDup (out ++ new)%list /\
    (EmptyString ∉ new) /\
    (new `sublist_of` (strip <$> arr)) /\
    (forall t, t ∈ (out ++ new)%list <->
       t ∈ out \/ (t <> EmptyString /\ exists x, x ∈ arr /\ strip x = t)).
Proof.
  induction arr as [|x arr IH]; intros seen out Hseen Hnd Hne; simpl.
  - exists []. rewrite app_nil_r. split; [done|]. split; [done|].
    split; [apply not_elem_of_nil|]. split; [done|].
    intros t. split; [auto|]. intros [?|(_ & y & Hy & _)]; [done|].
    by apply elem_of_nil in Hy.
  - case_decide as Hskip.
    + destruct (IH seen out Hseen Hnd Hne) as (new & Hrun & Hnd' & Hne' & Hsub & Hmem).
      exists new. split; [done|]. split; [done|]. split; [done|].
      split; [by apply sublist_cons|].
      intros t. rewrite Hmem. split.
      * intros [?|(Ht & y & Hy & Hs)]; [by left|].
        right. split; [done|]. exists y. split; [by right|done].
      * intros [?|(Ht & y & Hy & Hs)]; [by left|].
        apply elem_of_cons in Hy as [->|Hy].
        -- left. apply Hseen. destruct Hskip as [Hempty|Hin]; [congruence|].
           by rewrite <- Hs.
        -- right. split; [done|]. by exists y.
    + assert (Hfresh : strip x ∉ out).
      { intros Hin. apply Hskip. right. by apply Hseen. }
      destruct (IH ({[strip x]} ∪ seen) (out ++ [strip x])%list)
        as (new & Hrun & Hnd' & Hne' & Hsub & Hmem).
      * intros t. rewrite elem_of_union, elem_of_singleton, elem_of_app,
          list_elem_of_singleton, Hseen. tauto.
      * apply NoDup_app. split; [done|]. split; [|apply NoDup_singleton].
        intros t Ht Ht'. apply list_elem_of_singleton in Ht' as ->. done.
      * rewrite elem_of_app, list_elem_of_singleton. intros [?|Heq]; [done|].
        apply Hskip. by left.
      * exists (strip x :: new). rewrite <- app_assoc in Hrun, Hnd', Hmem.
        split; [done|]. split; [done|]. split.
        { rewrite elem_of_cons. intros [Heq|?]; [|done]. apply Hskip. by left. }
        split; [by apply sublist_skip|].
        intros t. rewrite Hmem, elem_of_app, list_elem_of_singleton. split.
        -- intros [[? | ->]|(Ht & y & Hy & Hs)].
           ++ by left.
           ++ right. split; [intros Heq; apply Hskip; by left|].
              exists x. split; [left|done].
           ++ right. split; [done|]. exists y. split; [by right|done].
        -- intros [?|(Ht & y & Hy & Hs)]; [by left; left|].
           apply elem_of_cons in Hy as [->|Hy].
           ++ left. by right.
           ++ right. split; [done|]. by exists y.
Qed.

Lemma dumps_unique_loop_fixed (l : list string) :
  forall (seen : gset string) (out : list string),
  NoDup l ->
  (forall t, t ∈ l -> strip t = t /\ t <> EmptyString /\ t ∉ seen) ->
  dumps_unique_loop l seen out = (out ++ l)%list.
Proof.
  induction l as [|x l IH]; intros seen out Hnd Hall; simpl.
  - by rewrite app_nil_r.
  - apply NoDup_cons in Hnd as [Hx Hnd].
    destruct (Hall x) as (Hs & Hne & Hseen); [left|].
    rewrite Hs. rewrite decide_False by tauto.
    rewrite IH; [by rewrite <- app_assoc|done|].
    intros t Ht. destruct (Hall t) as (? & ? & ?); [by right|].
    split; [done|]. split; [done|].
    rewrite elem_of_union, elem_of_singleton. intros [-> | ?]; done.
Qed.

(** The order of the list: what comes before a text in the list are the
    texts, not empty and not yet listed, that come before its first
    occurrence in the argument. *)
Lemma dumps_unique_loop_order (arr : list string) :
  forall (seen : gset string) (out new : list string),
  (forall t, t ∈ seen <-> t ∈ out) ->
  NoDup out ->
  EmptyString ∉ out ->
  dumps_unique_loop arr seen out = (out ++ new)%list ->
  forall pre t post, new = (pre ++ t :: post)%list ->
    exists a b,
      strip <$> arr = (a ++ t :: b)%list /\ (t ∉ a) /\
      forall u, u ∈ pre <-> u <> EmptyString /\ u ∈ a /\ (u ∉ out).
Proof.
  induction arr as [|x arr IH]; intros seen out new Hseen Hnd Hne Hrun pre t post Hnew.
  - simpl in Hrun. rewrite <- (app_nil_r out) in Hrun at 1.
    apply app_inv_head in Hrun. subst new. by destruct pre.
  - destruct (dumps_unique_loop_spec (x :: arr) seen out Hseen Hnd Hne)
      as (new0 & Hrun0 & Hnd0 & Hne0 & _ & _).
    rewrite Hrun in Hrun0. apply app_inv_head in Hrun0. subst new0.
    assert (Ht : t ∈ new) by (rewrite Hnew; apply elem_of_app; right; left).
    assert (Htout : t ∉ out).
    { intros Hin. apply NoDup_app in Hnd0 as (_ & Hdisj & _). by apply (Hdisj t). }
    assert (Htne : t <> EmptyString) by (intros ->; done).
    simpl in Hrun. case_decide as Hskip.
    + destruct (IH seen out new Hseen Hnd Hne Hrun pre t post Hnew)
        as (a & b & Harr & Hta & Hpre).
      exists (strip x :: a), b. split; [by rewrite fmap_cons, Harr|]. split.
      * rewrite elem_of_cons. intros [Heq|?]; [|done].
        destruct Hskip as [Hempty|Hin]; [congruence|].
        apply Htout, Hseen. by rewrite Heq.
      * intros u. rewrite Hpre, elem_of_cons. split; [tauto|].
        intros (Hu & [->|Hin] & Hout); [|done].
        destruct Hskip as [?|Hin]; [done|]. by apply Hseen in Hin.
    + assert (Hfresh : strip x ∉ out).
      { intros Hin. apply Hskip. right. by apply Hseen. }
      assert (Hseen' : forall u, u ∈ {[strip x]} ∪ seen <-> u ∈ (out ++ [strip x])%list).
      { intros u. rewrite elem_of_union, elem_of_singleton, elem_of_app,
          list_elem_of_singleton, Hseen. tauto. }
      assert (Hnd' : NoDup (out ++ [strip x])%list).
      { apply NoDup_app. split; [done|]. split; [|apply NoDup_singleton].
        intros u Hu Hu'. apply list_elem_of_singleton in Hu' as ->. done. }
      assert (Hne' : EmptyString ∉ (out ++ [strip x])%list).
      { rewrite elem_of_app, list_elem_of_singleton. intros [?|Heq]; [done|].
        apply Hskip. by left. }
      destruct (dumps_unique_loop_spec arr _ _ Hseen' Hnd' Hne')
        as (new1 & Hrun1 & Hnd1 & _).
      rewrite Hrun, <- app_assoc in Hrun1. apply app_inv_head in Hrun1.
      simpl in Hrun1. subst new.
      destruct pre as [|p pre]; simpl in Hrun1; injection Hrun1 as Hhead Htail.
      * subst t. exists [], (strip <$> arr). split; [done|].
        split; [apply not_elem_of_nil|].
        intros u. split; [by intros ?%elem_of_nil|].
        by intros (_ & ?%elem_of_nil & _).
      * subst p.
        assert (Hrun' : dumps_unique_loop arr ({[strip x]} ∪ seen) (out ++ [strip x])%list
                        = ((out ++ [strip x]) ++ new1)%list).
        { rewrite Hrun, <- Htail. by rewrite <- app_assoc. }
        destruct (IH _ _ new1 Hseen' Hnd' Hne' Hrun' pre t post (eq_sym Htail))
          as (a & b & Harr & Hta & Hpre).
        exists (strip x :: a), b. split; [by rewrite fmap_cons, Harr|]. split.
        -- rewrite elem_of_cons. intros [Heq|?]; [|done].
           apply NoDup_app in Hnd1 as (_ & Hdisj & _).
           apply (Hdisj t).
           ++ rewrite Heq. apply elem_of_app. right. by apply list_elem_of_singleton.
           ++ rewrite <- Htail. apply elem_of_app. right. left.
        -- intros u. rewrite !elem_of_cons, Hpre, elem_of_app, list_elem_of_singleton.
           split.
           ++ intros [->|(Hu & Hin & Hout)].
              ** split; [intros Heq; apply Hskip; by left|]. split; [by left|done].
              ** split; [done|]. split; [by right|]. tauto.
           ++ intros (Hu & Hin & Hout).
              destruct (decide (u = strip x)) as [->|Hneq]; [by left|].
              right. split; [done|]. destruct Hin as [?|Hin]; [done|].
              split; [done|]. tauto.
Qed.

(** X16: [_dumps_unique] encodes the list of the texts of its argument,
    stripped, without the empty ones and without repetitions, in the order
    of their first occurrence: the texts listed before a text are the ones
    that come before its first occurrence in the argument. Encoding that
    list again gives the same text. *)
Theorem dumps_unique_is_canonical (json_dumps : list string -> string)
    (arr : list string) :
  exists out,
    _dumps_unique json_dumps arr = json_dumps out /\
    NoDup out /\
    (out `sublist_of` (strip <$> arr)) /\
    (forall t, t ∈ out <-> t <> EmptyString /\ exists x, x ∈ arr /\ strip x = t) /\
    (forall pre t post, out = (pre ++ t :: post)%list ->
       exists a b,
         strip <$> arr = (a ++ t :: b)%list /\ (t ∉ a) /\
         forall u, u ∈ pre <-> u <> EmptyString /\ u ∈ a) /\
    _dumps_unique json_dumps out = json_dumps out.
Proof.
  assert (Hseen : forall t : string, t ∈ (∅ : gset string) <-> t ∈ @nil string).
  { intros t. rewrite elem_of_empty. split; [done|]. apply not_elem_of_nil. }
  destruct (dumps_unique_loop_spec arr ∅ [] Hseen (NoDup_nil_2) (not_elem_of_nil _))
    as (out & Hrun & Hnd & Hne & Hsub & Hmem).
  simpl in *. exists out. unfold _dumps_unique. rewrite Hrun.
  split; [done|]. split; [done|]. split; [done|].
  assert (Hin : forall t, t ∈ out <->
            t <> EmptyString /\ exists x, x ∈ arr /\ strip x = t).
  { intros t. rewrite Hmem. split; [|by right].
    intros [Hnil|?]; [by apply elem_of_nil in Hnil|done]. }
  split; [done|]. split.
  - intros pre t post Hout.
    destruct (dumps_unique_loop_order arr ∅ [] out Hseen (NoDup_nil_2)
                (not_elem_of_nil _) Hrun pre t post Hout) as (a & b & Harr & Hta & Hpre).
    exists a, b. split; [done|]. split; [done|].
    intros u. rewrite Hpre. split; [tauto|].
    intros [? ?]. split; [done|]. split; [done|]. apply not_elem_of_nil.
  - rewrite (dumps_unique_loop_fixed out ∅ []); [done|done|].
    intros t Ht. apply Hin in Ht as (Hnot & x & _ & <-).
    split; [apply strip_strip|]. split; [done|]. apply not_elem_of_empty.
Qed.

Example dumps_unique_scenario (json_dumps : list string -> string) :
  _dumps_unique json_dumps [" milk "; "egg"; ""; "milk"; "  "; "egg "; "nuts"]
    = json_dumps ["milk"; "egg"; "nuts"].
Proof. reflexivity. Qed.

(** ** The listings *)

Lemma StronglySorted_filter {A} (R : relation A) (P : A -> Prop)
    `{!forall x, Decision (P x)} (l : list A) :
  StronglySorted R l -> StronglySorted R (filter P l).
Proof.
  induction 1 as [|x l Hl IH Hx]; [constructor|].
  rewrite filter_cons. case_decide; [|done].
  constructor; [done|]. apply Forall_forall. intros y Hy.
  apply list_elem_of_filter in Hy as [_ Hy].
  rewrite Forall_forall in Hx. by apply Hx.
Qed.

Lemma order_by_filter {A} (c : A -> A -> comparison) (P : A -> Prop)
    `{!forall x, Decision (P x)} (l : list A) :
  order_laws c ->
  (forall a b, a ∈ l -> b ∈ l -> c a b = Eq -> a = b) ->
  order_by c (filter P l) = filter P (order_by c l).
Proof.
  intros L Hstrict. apply (StronglySorted_unique_strong (le_of c)).
  - intros a b Ha Hb Hab Hba.
    apply Hstrict.
    + rewrite order_by_perm in Ha. by apply list_elem_of_filter in Ha as [_ ?].
    + apply list_elem_of_filter in Hb as [_ Hb]. by rewrite order_by_perm in Hb.
    + unfold le_of in *. rewrite (law_antisym c L a b) in Hba.
      by destruct (c a b).
  - by apply order_by_sorted.
  - by apply StronglySorted_filter, order_by_sorted.
  - by rewrite !order_by_perm.
Qed.

Section Listings.
Context `{Platform}.

Lemma by_exp_in_id_laws : order_laws by_exp_in_id.
Proof.
  apply (then_by_laws
           (fun a b : row => null_text_compare (sql_date (exp_at a.2)) (sql_date (exp_at b.2)))
           (fun a b : row =>
              then_by (null_text_compare (sql_date (in_at a.2)) (sql_date (in_at b.2)))
                      (a.1 ?= b.1))).
  - apply (on_key_laws null_text_compare (fun a : row => sql_date (exp_at a.2))
             null_text_compare_laws).
  - apply (then_by_laws
             (fun a b : row =>
                null_text_compare (sql_date (in_at a.2)) (sql_date (in_at b.2)))
             (fun a b : row => a.1 ?= b.1)).
    + apply (on_key_laws null_text_compare (fun a : row => sql_date (in_at a.2))
               null_text_compare_laws).
    + apply (on_key_laws Z.compare fst Z_compare_laws).
Qed.

Lemma by_exp_in_id_strict (t : gmap Z Item) (a b : row) :
  a ∈ map_to_list t -> b ∈ map_to_list t -> by_exp_in_id a b = Eq -> a = b.
Proof.
  intros Ha Hb Hc. destruct a as [i x], b as [j y].
  apply elem_of_map_to_list in Ha, Hb. unfold by_exp_in_id, then_by in Hc. simpl in Hc.
  destruct (null_text_compare _ _); try done.
  destruct (null_text_compare _ _); try done.
  apply Z.compare_eq in Hc as ->. congruence.
Qed.

(** X17: [get_items_by_name] returns the rows that [list_inventory]
    returns, restricted to the name and in the same order; the listing
    holds every batch once, in ascending order of date(exp_at), then
    date(in_at), then id; neither changes the connection. *)
Theorem listing_by_name_is_the_listing_filtered (nm : string) (w : World) :
  exists rows,
    list_inventory w = (w, Ok rows) /\
    get_items_by_name nm w = (w, Ok (filter (fun r : row => name r.2 = nm) rows)) /\
    StronglySorted (le_of by_exp_in_id) rows /\
    NoDup rows.*1 /\
    (forall r, r ∈ rows <-> inventory (current w) !! r.1 = Some r.2).
Proof.
  exists (select_all (current w)). split; [done|]. split; [|split; [|split]].
  - unfold get_items_by_name, fetchall, select_by_name, rows_named, select_all.
    rewrite (order_by_filter by_exp_in_id); [done|apply by_exp_in_id_laws|].
    apply by_exp_in_id_strict.
  - apply order_by_sorted, by_exp_in_id_laws.
  - unfold select_all. rewrite order_by_perm. apply NoDup_fst_map_to_list.
  - intros [id it]. unfold select_all. rewrite order_by_perm. simpl.
    apply elem_of_map_to_list.
Qed.

(** X18: [expiring_within] raises OverflowError when today plus the days
    is not a date, and otherwise returns the rows of the listing whose
    date(exp_at) is not NULL and lies between date(today) and date(today
    plus the days), both included, in the order of the listing; it does
    not change the connection in either case. *)
Theorem expiring_is_a_window_of_the_listing (today_date : date) (dys : Z) (w : World) :
  match add_days today_date dys with
  | None => expiring_within today_date dys w = (w, Raise OverflowError)
  | Some stop =>
      exists rows,
        list_inventory w = (w, Ok rows) /\
        expiring_within today_date dys w
          = (w, Ok (filter
                      (fun r : row =>
                         in_window (sql_date (_to_date_str today_date))
                           (sql_date (_to_date_str stop)) r = true)
                      rows)) /\
        (forall r, r ∈ filter
                     (fun r : row =>
                        in_window (sql_date (_to_date_str today_date))
                          (sql_date (_to_date_str stop)) r = true)
                     rows ->
           exists e lo hi,
             sql_date (exp_at r.2) = Some e /\
             sql_date (_to_date_str today_date) = Some lo /\
             sql_date (_to_date_str stop) = Some hi /\
             String.compare e lo <> Lt /\ String.compare e hi <> Gt)
  end.
Proof.
  unfold expiring_within. rewrite bind_eq. unfold lift.
  destruct (add_days today_date dys) as [stop|]; [|done]. simpl of_option.
  exists (select_all (current w)). split; [done|]. split.
  - unfold fetchall, select_expiring, select_all.
    rewrite (order_by_filter by_exp_in_id); [done|apply by_exp_in_id_laws|].
    apply by_exp_in_id_strict.
  - intros r Hr. apply list_elem_of_filter in Hr as [Hwin _].
    unfold in_window in Hwin.
    destruct (sql_date (exp_at r.2)) as [e|]; [|done].
    destruct (sql_date (_to_date_str today_date)) as [lo|]; [|done].
    destruct (sql_date (_to_date_str stop)) as [hi|]; [|done].
    exists e, lo, hi. apply andb_prop in Hwin as [H1 H2].
    repeat split; try done.
    + by destruct (String.compare e lo).
    + by destruct (String.compare e hi).
Qed.

End Listings.

(** ** What the migration pass leaves alone *)

Section MigrationFrame.
Context `{Platform}.

Lemma normalize_loop_frame rows tz : forall w id,
  id ∉ rows.*1 ->
  inventory (current (normalize_loop rows tz w).1) !! id = inventory (current w) !! id.
Proof.
  induction rows as [|r rows IH]; intros w id Hid; simpl; [done|].
  apply not_elem_of_cons in Hid as [Hne Hid].
  rewrite bind_eq. unfold lift.
  destruct (_parse_text_to_date (in_at r.2) tz) as [i|]; [|done].
  rewrite bind_eq.
  destruct (_parse_text_to_date (exp_at r.2) tz) as [e|]; [|done].
  rewrite bind_eq. unfold execute, update_item.
  destruct (inventory (current w) !! r.1) as [it|].
  - rewrite IH by done. simpl. by rewrite lookup_insert_ne.
  - rewrite IH by done. done.
Qed.

Lemma normalize_loop_keeps (Q : Db -> Prop) rows tz :
  (forall id i e db db' n,
     Q db -> update_item id (set_dates (_to_date_str i) (_to_date_str e)) db = Ok (db', n) ->
     Q db') ->
  preserves (fun w => Q (current w)) (normalize_loop rows tz).
Proof.
  intros Hup. induction rows as [|r rows IH]; simpl; holds.
Qed.

Lemma normalize_loop_commits_nothing rows tz (w : World) :
  committed (normalize_loop rows tz w).1 = committed w.
Proof.
  revert w. induction rows as [|r rows IH]; intros w; simpl; [done|].
  rewrite bind_eq. unfold lift.
  destruct (_parse_text_to_date (in_at r.2) tz) as [i|]; [|done].
  rewrite bind_eq.
  destruct (_parse_text_to_date (exp_at r.2) tz) as [e|]; [|done].
  rewrite bind_eq. unfold execute, update_item.
  destruct (inventory (current w) !! r.1) as [it|]; by rewrite IH.
Qed.

(** X19: the migration pass, whether it returns or raises, adds and
    removes no batch, leaves the defaults and every batch that it did not
    select exactly as they were, and changes nothing but the two dates of
    the batches it rewrites; when it raises, it raises ValueError (a date
    text that no stage parses) and has committed nothing. *)
Theorem normalization_keeps_the_rest (tz : string) (w : World) :
  exists w' r,
    _normalize_existing_rows_to_date_only tz w = (w', r) /\
    shelf_life_defaults (current w') = shelf_life_defaults (current w) /\
    (forall id, inventory (current w) !! id = None ->
       inventory (current w') !! id = None) /\
    (forall id it, inventory (current w) !! id = Some it ->
       exists it',
         inventory (current w') !! id = Some it' /\
         name it' = name it /\ quantity it' = quantity it /\ unit it' = unit it /\
         exp_source it' = exp_source it /\ created_at it' = created_at it /\
         updated_at it' = updated_at it /\
         (legacy_row (id, it) = false -> it' = it)) /\
    match r with
    | Ok _ => committed w' = current w' \/ w' = w
    | Raise e => e = ValueError /\ committed w' = committed w
    end.
Proof.
  unfold _normalize_existing_rows_to_date_only. rewrite bind_eq. unfold fetchall.
  pose proof (elem_of_select_legacy_rows (current w)) as Hsel.
  destruct (select_legacy_rows (current w)) as [|r0 rows0] eqn:Hrows.
  { exists w, (Ok tt). split; [done|]. split; [done|]. split; [done|].
    split; [|by right]. intros id it Hit. exists it. repeat split; done. }
  set (rows := r0 :: rows0) in *. rewrite bind_eq.
  pose proof (normalize_loop_frame rows tz w) as Hframe.
  pose proof (normalize_loop_commits_nothing rows tz w) as Hcommitted.
  assert (Hkept :
    (fun db =>
       shelf_life_defaults db = shelf_life_defaults (current w) /\
       forall id : Z,
         match inventory (current w) !! id, inventory db !! id with
         | Some it, Some it' =>
             name it' = name it /\ quantity it' = quantity it /\ unit it' = unit it /\
             exp_source it' = exp_source it /\ created_at it' = created_at it /\
             updated_at it' = updated_at it
         | None, None => True
         | _, _ => False
         end) (current (normalize_loop rows tz w).1)).
  { apply (normalize_loop_keeps
      (fun db =>
         shelf_life_defaults db = shelf_life_defaults (current w) /\
         forall id : Z,
           match inventory (current w) !! id, inventory db !! id with
           | Some it, Some it' =>
               name it' = name it /\ quantity it' = quantity it /\ unit it' = unit it /\
               exp_source it' = exp_source it /\ created_at it' = created_at it /\
               updated_at it' = updated_at it
           | None, None => True
           | _, _ => False
           end)).
    - intros id i e db db' n [Hs Hrel] Hup. split.
      + revert Hup. unfold update_item. destruct (inventory db !! id); by intros [= <- _].
      + apply (related_update _ _ id (set_dates (_to_date_str i) (_to_date_str e)) db db' n);
          try done; intros it it' Hsame; simpl; tauto.
    - split; [done|]. intros id. by destruct (inventory (current w) !! id). }
  destruct Hkept as [Hs Hrel].
  assert (Hraise : forall e w1, normalize_loop rows tz w = (w1, Raise e) ->
            e = ValueError).
  { clear. generalize rows. intros l. revert w.
    induction l as [|r l IH]; intros w e w1; simpl; [done|].
    rewrite bind_eq. unfold lift, _parse_text_to_date, try_except, of_option, iso_date.
    destruct (strptime (strip (in_at r.2))).
    2: destruct (fromisoformat (strip (in_at r.2))) as [dt|].
    2: destruct (tzinfo_is_None dt).
    3: destruct (astimezone dt tz).
    all: try (destruct (strptime (slice_to 10 (strip (in_at r.2))));
              [|by intros [= _ <-]]).
    all: rewrite bind_eq.
    all: destruct (strptime (strip (exp_at r.2))).
    all: try destruct (fromisoformat (strip (exp_at r.2))) as [dt'|].
    all: try destruct (tzinfo_is_None dt').
    all: try destruct (astimezone dt' tz).
    all: try (destruct (strptime (slice_to 10 (strip (exp_at r.2))));
              [|by intros [= _ <-]]).
    all: rewrite bind_eq; unfold execute, update_item;
         destruct (inventory (current w) !! r.1); apply IH. }
  destruct (normalize_loop rows tz w) as [w1 [[]|e]] eqn:Hrun; cbn [fst] in *.
  - eexists _, _. split; [reflexivity|]. simpl. split; [done|].
    split; [|split; [|by left]].
    + intros id Hid. specialize (Hrel id). rewrite Hid in Hrel.
      by destruct (inventory (current w1) !! id).
    + intros id it Hit. specialize (Hrel id). rewrite Hit in Hrel.
      destruct (inventory (current w1) !! id) as [it'|] eqn:Hit'; [|done].
      exists it'. repeat split; try tauto.
      intros Hleg. rewrite Hframe in Hit'; [congruence|].
      intros Hmem. apply list_elem_of_fmap in Hmem as (r & -> & Hr).
      apply Hsel in Hr as [Hr Hleg']. destruct r as [j x]. simpl in *. congruence.
  - eexists _, _. split; [reflexivity|]. split; [done|]. split; [|split; [|split]].
    + intros id Hid. specialize (Hrel id). rewrite Hid in Hrel.
      by destruct (inventory (current w1) !! id).
    + intros id it Hit. specialize (Hrel id). rewrite Hit in Hrel.
      destruct (inventory (current w1) !! id) as [it'|] eqn:Hit'; [|done].
      exists it'. repeat split; try tauto.
      intros Hleg. rewrite Hframe in Hit'; [congruence|].
      intros Hmem. apply list_elem_of_fmap in Hmem as (r & -> & Hr).
      apply Hsel in Hr as [Hr Hleg']. destruct r as [j x]. simpl in *. congruence.
    + by apply (Hraise e w1).
    + done.
Qed.

End MigrationFrame.

(** ** An update of the expiry by id *)

Lemma find_none_iff {A} (f : A -> bool) (l : list A) :
  List.find f l = None <-> forall x, x ∈ l -> f x = false.
Proof.
  split.
  - intros Hnone x Hx. apply (find_none f l Hnone). by apply list_elem_of_In.
  - induction l as [|a l IH]; intros Hall; simpl; [done|].
    rewrite (Hall a) by left. apply IH. intros x Hx. apply Hall. by right.
Qed.

Section ById.
Context `{Platform}.

Lemma find_in_listing (db : Db) (item_id : Z) :
  List.find (fun r : row => r.1 =? item_id) (select_all db)
    = (fun it => (item_id, it)) <$> inventory db !! item_id.
Proof.
  assert (Hmem : forall r, r ∈ select_all db <-> inventory db !! r.1 = Some r.2).
  { intros [id it]. unfold select_all. rewrite order_by_perm. simpl.
    apply elem_of_map_to_list. }
  destruct (List.find _ (select_all db)) as [[id it]|] eqn:Hfind.
  - apply find_some in Hfind as [Hin Hid]. simpl in Hid.
    apply Z.eqb_eq in Hid as ->.
    apply list_elem_of_In, Hmem in Hin. simpl in Hin. by rewrite Hin.
  - destruct (inventory db !! item_id) as [it|] eqn:Hit; [|done].
    rewrite find_none_iff in Hfind.
    specialize (Hfind (item_id, it)). simpl in Hfind.
    rewrite Z.eqb_refl in Hfind. discriminate Hfind. by apply Hmem.
Qed.

(** X20: an update of the expiry with an id goes by the id, whatever name
    the request carries. An id that is not in the table is answered with
    the not-found error and the connection is as it was. For an id that
    is there, with exp_days given, a stock-in date that resolves and a sum
    that is a date, the answer counts one row: the batch gets the stock-in
    date plus exp_days as exp_at, its expiry is marked as given by the
    user, exp_at given beside exp_days is not read, no other batch and no
    default changes, and the result is committed. *)
Theorem update_expiry_by_id (p : Payload) (tz : string) (w : World) (item_id : Z) :
  p_id p = Some item_id ->
  match inventory (current w) !! item_id with
  | None => _inventory_fn update_expiry p tz w = (w, Error not_found)
  | Some it =>
      forall w1 in_d n e,
        _parse_to_date (Some (in_at it)) tz w = (w1, Ok in_d) ->
        p_exp_days p = Some n ->
        add_days in_d n = Some e ->
        exists w',
          _inventory_fn update_expiry p tz w = (w', UpdatedItemCount 1) /\
          inventory (current w')
            = <[item_id := set_exp_source (_to_date_str e) src_user
                             (isoformat (now (clock w1) tz)) it]>
                (inventory (current w)) /\
          shelf_life_defaults (current w') = shelf_life_defaults (current w) /\
          committed w' = current w'
  end.
Proof.
  intros Hid. unfold _inventory_fn, update_expiry_action. rewrite Hid.
  rewrite bind_eq. unfold list_inventory, fetchall.
  rewrite find_in_listing.
  destruct (inventory (current w) !! item_id) as [it|] eqn:Hit;
    unfold fmap, option_fmap, option_map; cbv beta iota; [|done].
  intros w1 in_d n e Hparse Hdays Hadd. cbn [fst snd].
  destruct (parse_to_date_dbs (Some (in_at it)) tz w) as [Hc1 Hd1].
  rewrite Hparse in Hc1, Hd1. simpl in Hc1, Hd1.
  rewrite bind_eq, Hparse, Hdays. rewrite bind_eq. unfold lift. rewrite Hadd.
  simpl of_option. cbv iota beta. rewrite bind_eq.
  unfold update_item_exp_by_id. rewrite bind_eq, now_text_run, bind_eq.
  rewrite (execute_update_item_run _ _ _ it) by (by rewrite Hd1).
  rewrite bind_eq. unfold commit, ret.
  eexists. split; [reflexivity|]. simpl. by rewrite Hd1.
Qed.

End ById.

Section ByIdExamples.
Import Examples.
Local Existing Instance Reference.platform.

Lemma update_expiry_by_id_witness :
  _inventory_fn update_expiry
    (mkPayload (Some "milk") None None None (Some 3) None (Some 7) None) tz one_milk
  = (one_milk, Error not_found).
Proof.
  apply (update_expiry_by_id
           (mkPayload (Some "milk") None None None (Some 3) None (Some 7) None)
           tz one_milk 7).
  reflexivity.
Defined.

Lemma update_expiry_by_id_scenario :
  exists w',
    _inventory_fn update_expiry
      (mkPayload None None None None (Some 30) (Some "not a date") (Some 1) None)
      tz one_milk
    = (w', UpdatedItemCount 1) /\
    exp_at <$> inventory (committed w') !! 1 = Some "2024-01-31" /\
    exp_source <$> inventory (committed w') !! 1 = Some src_user.
Proof. eexists. repeat split; vm_compute; reflexivity. Qed.

End ByIdExamples.

(** ** The calendar and the texts, checked on examples *)

Example ord_2024 : toordinal (mkdate 2024 1 1) = 738886.
Proof. reflexivity. Qed.

Example ord_roundtrip_leap : _ord2ymd (toordinal (mkdate 2024 2 29)) = mkdate 2024 2 29.
Proof. reflexivity. Qed.

Example ord_max : _ord2ymd _MAXORDINAL = mkdate 9999 12 31.
Proof. reflexivity. Qed.

Example ord_end_of_cycle : _ord2ymd (toordinal (mkdate 2000 12 31)) = mkdate 2000 12 31.
Proof. reflexivity. Qed.

Example strptime_canonical : strptime "2024-01-02" = Some (mkdate 2024 1 2).
Proof. reflexivity. Qed.

Example strptime_short_fields : strptime "2024-1-5" = Some (mkdate 2024 1 5).
Proof. reflexivity. Qed.

Example strptime_backtracks : strptime "2024-1-15" = Some (mkdate 2024 1 15).
Proof. reflexivity. Qed.

Example strptime_rejects_datetime : strptime "2024-01-02T10:00:00" = None.
Proof. reflexivity. Qed.

Example strptime_rejects_feb30 : strptime "2024-02-30" = None.
Proof. reflexivity. Qed.

Example strptime_rejects_short_year : strptime "987-06-05" = None.
Proof. reflexivity. Qed.

Example strftime_year_unpadded : _to_date_str (mkdate 987 6 5) = "987-06-05".
Proof. reflexivity. Qed.

Example add_days_scenario : add_days (mkdate 2024 1 2) 7 = Some (mkdate 2024 1 9).
Proof. reflexivity. Qed.

Example add_days_overflow : add_days (mkdate 2024 1 1) 3000000 = None.
Proof. reflexivity. Qed.

Example strip_both : strip "  2024-01-02 " = "2024-01-02".
Proof. reflexivity. Qed.
